(** * Session and transfer coordination core of the document uploader

    A shallow embedding of the browser client's three coordinating pieces:

    - [Upload]: [UploadService] (frontend/src/app/services/upload.service.ts),
      the bounded-concurrency upload queue;
    - [Auth]: [AuthService] (frontend/src/app/services/auth.service.ts), the
      token lifecycle manager on top of [localStorage];
    - [Interceptor]: [AuthInterceptor]
      (frontend/src/app/interceptors/auth.interceptor.ts), the 401-triggered
      refresh-and-retry protocol.

    The client is single-threaded and event-driven, so every handler is a
    function from state to state and an execution is a list of events folded
    over the state.  Network calls appear as entries of an in-flight list that
    a later event completes. *)

From Stdlib Require Import ZArith Lia Ascii String.
From stdpp Require Import base list strings gmap.

Set Warnings "-register-all".
Open Scope Z_scope.

(** ** JavaScript primitives used by the services *)

Module Js.

(** Truthiness of a string: the empty string is falsy. *)
Definition truthy (s : string) : bool := negb (String.eqb s "").

(** Truthiness of a [string | null | undefined]. *)
Definition truthy_opt (o : option string) : bool :=
  match o with
  | Some s => truthy s
  | None => false
  end.

(** [a || b] on optional strings. *)
Definition or_else (a b : option string) : option string :=
  if truthy_opt a then a else b.

(** [s.split(sep)] for a one-character separator; never the empty array. *)
Fixpoint split (sep : ascii) (s : string) : list string :=
  match s with
  | EmptyString => [EmptyString]
  | String c r =>
      if Ascii.eqb c sep then EmptyString :: split sep r
      else match split sep r with
           | [] => [String c EmptyString]
           | h :: t => String c h :: t
           end
  end.

(** [arr.pop()]: the last element, [undefined] on the empty array. *)
Definition pop (l : list string) : option string := last l.

Definition lower_ascii (c : ascii) : ascii :=
  let n := nat_of_ascii c in
  if (65 <=? n)%nat && (n <=? 90)%nat then ascii_of_nat (n + 32) else c.

(** [s.length]: the number of UTF-16 code units of the string.  A
    string is held as the bytes of its UTF-8 form: a byte that continues a
    character (10xxxxxx) adds nothing, a byte that starts a four-byte
    character (11110xxx), which the browser holds as a surrogate pair, adds
    two, and every other byte adds one.  On ASCII text it is the number of
    characters. *)
Definition code_units (c : ascii) : nat :=
  let n := nat_of_ascii c in
  if (n <? 128)%nat then 1
  else if (n <? 192)%nat then 0
  else if (n <? 240)%nat then 1
  else 2.

Fixpoint string_length (s : string) : nat :=
  match s with
  | EmptyString => O
  | String c r => (code_units c + string_length r)%nat
  end.

(** [s.toLowerCase()]: the ASCII capitals become small letters, every other
    byte is kept. *)
Fixpoint toLowerCase (s : string) : string :=
  match s with
  | EmptyString => EmptyString
  | String c r => String (lower_ascii c) (toLowerCase r)
  end.

(** [arr.includes(x)] on an array of strings. *)
Definition includes (l : list string) (x : string) : bool :=
  existsb (String.eqb x) l.

(** [arr.findIndex(p)], with [None] for the result [-1]. *)
Fixpoint findIndex {A} (p : A -> bool) (l : list A) : option nat :=
  match l with
  | [] => None
  | x :: r => if p x then Some O else option_map S (findIndex p r)
  end.

(** [arr.find(p)]. *)
Definition find {A} (p : A -> bool) (l : list A) : option A := List.find p l.

(** An [HttpErrorResponse] as the services read it: [error.status],
    [error.error?.message] and [error.message]. *)
Record HttpError := mkHttpError {
  http_status : Z;
  body_message : option string;
  message : option string
}.

(** What an observable can fail with: an HTTP error response or a plain
    [new Error(msg)], which has no [status]. *)
Inductive Error :=
| Http (e : HttpError)
| Plain (msg : string).

(** [error.status === n] *)
Definition status_is (n : Z) (e : Error) : bool :=
  match e with
  | Http h => http_status h =? n
  | Plain _ => false
  end.

End Js.

(** ** Upload queue controller *)

Module Upload.

Definition MAX_CONCURRENT_UPLOADS : Z := 3.
Definition ALLOWED_FILE_TYPES : list string := ["pdf"; "docx"; "txt"]%string.
Definition MAX_FILE_SIZE : Z := 100 * 1024 * 1024.

(** The browser's [File]: name, size in bytes, declared content type. *)
Record File := mkFile {
  name : string;
  fsize : Z;
  ftype : string
}.

Inductive Status := Pending | Uploading | Success | Failed.

#[global] Instance Status_eq_dec : EqDecision Status.
Proof. solve_decision. Defined.

Definition status_eqb (a b : Status) : bool := bool_decide (a = b).

(** [FileUpload] of models/upload.model.ts, with the fields the queue
    reads or writes ([sizeMB] is a display string and is left out). *)
Record FileUpload := mkFileUpload {
  id : string;
  originalName : string;
  size : Z;
  mimetype : string;
  status : Status;
  progress : Z;
  error : option string;
  file : option File
}.

Record UploadQueue := mkQueue {
  files : list FileUpload;
  activeUploads : Z;
  maxConcurrent : Z
}.

(** The reason of a rejection.  The source renders each as one message:
    "File size (..MB) exceeds the 10MB limit", "File type '.ext' is not
    allowed. ..." and "Filename is too long (maximum 255 characters)". *)
Inductive ValidationError :=
| SizeExceeds (actual : Z)
| TypeNotAllowed (ext : option string)
| NameTooLong.

#[global] Instance ValidationError_eq_dec : EqDecision ValidationError.
Proof. solve_decision. Defined.

Record Validation := mkValidation {
  isValid : bool;
  verror : option ValidationError
}.

(** [file.name.split('.').pop()?.toLowerCase()] *)
Definition fileExtension (f : File) : option string :=
  option_map Js.toLowerCase (Js.pop (Js.split "." (name f))).

Definition validateFile (f : File) : Validation :=
  if fsize f >? MAX_FILE_SIZE then
    mkValidation false (Some (SizeExceeds (fsize f)))
  else
    let ext := fileExtension f in
    if negb (Js.truthy_opt ext)
       || negb (Js.includes ALLOWED_FILE_TYPES (default ""%string ext))
    then mkValidation false (Some (TypeNotAllowed ext))
    else if (255 <? Js.string_length (name f))%nat then
      mkValidation false (Some NameTooLong)
    else mkValidation true None.

(** One line of the rejection report: [`${file.name}: ${validation.error}`]. *)
Definition ReportLine : Type := string * option ValidationError.

(** The service together with what it has emitted so far.
    [queue] is the current value of [uploadQueueSubject]; [published] is
    every value passed to [uploadQueueSubject.next], latest first, starting
    with the subject's initial value; [requests] holds the file id of each
    upload request issued, in order; [idCalls] counts calls of
    [generateId]; [uploadCompleteCount] counts [uploadCompleteSubject.next];
    [alerts] are the reports shown by [alert], latest first. *)
Record State := mkState {
  queue : UploadQueue;
  published : list UploadQueue;
  requests : list string;
  idCalls : nat;
  uploadCompleteCount : nat;
  alerts : list (list ReportLine)
}.

Definition initialQueue : UploadQueue := mkQueue [] 0 MAX_CONCURRENT_UPLOADS.

Definition init : State := mkState initialQueue [initialQueue] [] 0 0 [].

(** [uploadQueueSubject.next(q)] *)
Definition next (q : UploadQueue) (s : State) : State :=
  mkState q (q :: published s) (requests s) (idCalls s)
          (uploadCompleteCount s) (alerts s).

(** Replaces the current value without emitting (an in-place mutation of
    an object reachable from [uploadQueueSubject.value]). *)
Definition mutate (q : UploadQueue) (s : State) : State :=
  mkState q (published s) (requests s) (idCalls s)
          (uploadCompleteCount s) (alerts s).

Definition set_files (fs : list FileUpload) (q : UploadQueue) : UploadQueue :=
  mkQueue fs (activeUploads q) (maxConcurrent q).

Definition set_active (a : Z) (q : UploadQueue) : UploadQueue :=
  mkQueue (files q) a (maxConcurrent q).

Definition has_id (i : string) (f : FileUpload) : bool := String.eqb (id f) i.

Definition is_pending (f : FileUpload) : bool := status_eqb (status f) Pending.

Definition is_active (f : FileUpload) : bool :=
  status_eqb (status f) Pending || status_eqb (status f) Uploading.

(** [updateFileStatus]: written through the index of the first upload
    with that id; an unknown id changes and emits nothing. *)
Definition with_status (st : Status) (err : option string) (f : FileUpload)
  : FileUpload :=
  mkFileUpload (id f) (originalName f) (size f) (mimetype f) st (progress f)
               (Js.or_else err (error f)) (file f).

Definition updateFileStatus (fileId : string) (st : Status)
    (err : option string) (s : State) : State :=
  let q := queue s in
  match Js.findIndex (has_id fileId) (files q) with
  | Some fileIndex =>
      match files q !! fileIndex with
      | Some old =>
          next (set_files (<[fileIndex := with_status st err old]> (files q)) q) s
      | None => s
      end
  | None => s
  end.

Definition with_progress (p : Z) (f : FileUpload) : FileUpload :=
  mkFileUpload (id f) (originalName f) (size f) (mimetype f) (status f) p
               (error f) (file f).

Definition updateFileProgress (fileId : string) (p : Z) (s : State) : State :=
  let q := queue s in
  match Js.findIndex (has_id fileId) (files q) with
  | Some fileIndex =>
      match files q !! fileIndex with
      | Some old =>
          next (set_files (<[fileIndex := with_progress p old]> (files q)) q) s
      | None => s
      end
  | None => s
  end.

Definition removeFromQueue (fileId : string) (s : State) : State :=
  let q := queue s in
  next (set_files (List.filter (fun f => negb (has_id fileId f)) (files q)) q) s.

Definition incrementActiveUploads (s : State) : State :=
  let q := queue s in
  next (set_active (activeUploads q + 1) q) s.

Definition decrementActiveUploads (s : State) : State :=
  let q := queue s in
  next (set_active (Z.max 0 (activeUploads q - 1)) q) s.

(** [startSingleUpload]: the request it sends is recorded in [requests]
    and answered later by a [Response] or [Failure] event. *)
Definition startSingleUpload (fileUpload : FileUpload) (s : State) : State :=
  match file fileUpload with
  | None =>
      updateFileStatus (id fileUpload) Failed
                       (Some "File object is missing"%string) s
  | Some _ =>
      let s1 := updateFileStatus (id fileUpload) Uploading None s in
      let s2 := incrementActiveUploads s1 in
      mkState (queue s2) (published s2) (requests s2 ++ [id fileUpload])
              (idCalls s2) (uploadCompleteCount s2) (alerts s2)
  end.

Definition processUploadQueue (s : State) : State :=
  let q := queue s in
  let pendingFiles := List.filter is_pending (files q) in
  let canStartMore := maxConcurrent q - activeUploads q in
  if (canStartMore >? 0) && (0 <? length pendingFiles)%nat then
    let filesToStart := take (Z.to_nat canStartMore) pendingFiles in
    fold_left (fun s fileUpload => startSingleUpload fileUpload s)
              filesToStart s
  else s.

Definition startAllUploads (s : State) : State := processUploadQueue s.

Definition startUploadById (fileId : string) (s : State) : State :=
  match Js.find (fun f => has_id fileId f && is_pending f)
                (files (queue s)) with
  | Some fileUpload => startSingleUpload fileUpload s
  | None => s
  end.

Definition cancelUpload (fileId : string) (s : State) : State :=
  removeFromQueue fileId s.

(** The [forEach] of [cancelAllUploads] walks the live array by index
    while [updateFileStatus] writes into it. *)
Fixpoint cancelLoop (n i : nat) (s : State) : State :=
  match n with
  | O => s
  | S n' =>
      let s' :=
        match files (queue s) !! i with
        | Some f =>
            if is_active f
            then updateFileStatus (id f) Failed
                                  (Some "Cancelled by user"%string) s
            else s
        | None => s
        end in
      cancelLoop n' (S i) s'
  end.

Definition cancelAllUploads (s : State) : State :=
  let s1 := cancelLoop (length (files (queue s))) 0 s in
  next (mkQueue [] 0 MAX_CONCURRENT_UPLOADS) s1.

(** [retryUpload] writes the three fields into the found object itself:
    the current value changes, nothing is emitted. *)
Definition reset_for_retry (f : FileUpload) : FileUpload :=
  mkFileUpload (id f) (originalName f) (size f) (mimetype f) Pending 0 None
               (file f).

Definition retryUpload (fileId : string) (s : State) : State :=
  let q := queue s in
  match Js.findIndex (has_id fileId) (files q) with
  | Some i =>
      match files q !! i with
      | Some f =>
          if status_eqb (status f) Failed then
            processUploadQueue
              (mutate (set_files (<[i := reset_for_retry f]> (files q)) q) s)
          else s
      | None => s
      end
  | None => s
  end.

Definition clearCompletedUploads (s : State) : State :=
  let q := queue s in
  next (set_files (List.filter is_active (files q)) q) s.

Definition getErrorMessage (e : Js.HttpError) : string :=
  if Js.truthy_opt (Js.body_message e)
  then default ""%string (Js.body_message e)
  else if Js.truthy_opt (Js.message e) then default ""%string (Js.message e)
  else "An unknown error occurred"%string.

(** [UploadResult]: [successCount] and the [error] of each failed entry. *)
Record UploadResult := mkResult {
  successCount : Z;
  failed : list string
}.

Definition handleUploadError (fileId : string) (e : Js.HttpError) (s : State)
  : State :=
  let s1 := updateFileStatus fileId Failed (Some (getErrorMessage e)) s in
  let s2 := decrementActiveUploads s1 in
  processUploadQueue s2.

(** The [next] callback of the request's subscription on the
    [HttpResponse] event. *)
Definition onResponse (fileId : string) (r : UploadResult) (s : State)
  : State :=
  let s1 :=
    if successCount r >? 0 then
      let s' := updateFileStatus fileId Success None s in
      mkState (queue s') (published s') (requests s') (idCalls s')
              (S (uploadCompleteCount s')) (alerts s')
    else
      updateFileStatus fileId Failed
        (Js.or_else (head (failed r)) (Some "Upload failed"%string)) s in
  let s2 := decrementActiveUploads s1 in
  processUploadQueue s2.

(** A transport error first runs [handleUploadError] inside [catchError],
    whose rethrown error then reaches the subscription's [error] callback. *)
Definition onError (fileId : string) (e : Js.HttpError) (s : State) : State :=
  let s1 := handleUploadError fileId e s in
  let s2 := updateFileStatus fileId Failed (Some (getErrorMessage e)) s1 in
  let s3 := decrementActiveUploads s2 in
  processUploadQueue s3.

(** The [UploadProgress] event: [Math.round(100 * loaded / total)] when
    [event.total] is truthy. *)
Definition onProgress (fileId : string) (loaded : Z) (total : option Z)
    (s : State) : State :=
  match total with
  | Some t =>
      if t =? 0 then s
      else updateFileProgress fileId ((200 * loaded + t) / (2 * t)) s
  | None => s
  end.

(** What can happen to the service: a call of its public interface or
    the delivery of an event of one of its upload requests. *)
Inductive Event :=
| AddFiles (fs : list File)
| StartAll
| StartById (fileId : string)
| Cancel (fileId : string)
| CancelAll
| Retry (fileId : string)
| ClearCompleted
| Progress (fileId : string) (loaded : Z) (total : option Z)
| Response (fileId : string) (r : UploadResult)
| Failure (fileId : string) (e : Js.HttpError).

Section WithIds.

(** [generateId()] mixes the clock with [Math.random()]; the [n]-th call
    of a run returns [generateId n]. *)
Variable generateId : nat -> string.

(** The [forEach] of [addFilesToQueue]: the accepted uploads, the report
    lines and the number of ids drawn. *)
Fixpoint sift (fs : list File) (n : nat)
  : list FileUpload * list ReportLine * nat :=
  match fs with
  | [] => ([], [], n)
  | f :: r =>
      let v := validateFile f in
      if isValid v then
        let '(ok, errs, n') := sift r (S n) in
        (mkFileUpload (generateId n) (name f) (fsize f) (ftype f)
                      Pending 0 None (Some f) :: ok, errs, n')
      else
        let '(ok, errs, n') := sift r n in
        (ok, (name f, verror v) :: errs, n')
  end.

Definition addFilesToQueue (fs : list File) (s : State)
  : State * list FileUpload :=
  let '(validFiles, errors, n) := sift fs (idCalls s) in
  let s1 :=
    mkState (queue s) (published s) (requests s) n (uploadCompleteCount s)
            (if (0 <? length errors)%nat then errors :: alerts s
             else alerts s) in
  let currentQueue := queue s1 in
  (next (set_files (files currentQueue ++ validFiles) currentQueue) s1,
   validFiles).


Definition handle (s : State) (e : Event) : State :=
  match e with
  | AddFiles fs => fst (addFilesToQueue fs s)
  | StartAll => startAllUploads s
  | StartById i => startUploadById i s
  | Cancel i => cancelUpload i s
  | CancelAll => cancelAllUploads s
  | Retry i => retryUpload i s
  | ClearCompleted => clearCompletedUploads s
  | Progress i l t => onProgress i l t s
  | Response i r => onResponse i r s
  | Failure i e => onError i e s
  end.

Definition run (evs : list Event) (s : State) : State :=
  fold_left handle evs s.

End WithIds.

(** *** Vocabulary of the statements *)

(** The ids of the queued uploads, in queue order. *)
Definition ids (s : State) : list string := id <$> files (queue s).

Definition nonneg (q : UploadQueue) : Prop := 0 <= activeUploads q.

(** The counter is non-negative now and in everything emitted so far. *)
Definition counter_ok (s : State) : Prop :=
  nonneg (queue s) /\ Forall nonneg (published s).

(** The free slots as [processUploadQueue] computes them. *)
Definition slots (q : UploadQueue) : nat :=
  Z.to_nat (maxConcurrent q - activeUploads q).

(** The ids of the first [slots] pending uploads, in queue order. *)
Definition first_pending (q : UploadQueue) : list string :=
  take (slots q) (id <$> List.filter is_pending (files q)).

Definition has_file (f : FileUpload) : bool :=
  match file f with Some _ => true | None => false end.

(** The counter respects the limit the service was built with. *)
Definition within_limit (s : State) : Prop :=
  maxConcurrent (queue s) = MAX_CONCURRENT_UPLOADS
  /\ activeUploads (queue s) <= MAX_CONCURRENT_UPLOADS.

(** Event lists that never start one file by id. *)
Definition no_start_by_id (ev : Event) : bool :=
  match ev with StartById _ => false | _ => true end.

(** Distinct ids, all drawn from the generator, and every upload holding
    its file. *)
Definition well_formed (gen : nat -> string) (s : State) : Prop :=
  NoDup (ids s)
  /\ Forall (fun i => exists k, (k < idCalls s)%nat /\ i = gen k) (ids s)
  /\ Forall (fun f => has_file f = true) (files (queue s)).

(** The queue after the uploads named in [started] have been moved to
    [Uploading]. *)
Definition mark_uploading (started : list string) (fs : list FileUpload)
  : list FileUpload :=
  (fun f => if bool_decide (id f ∈ started)
            then with_status Uploading None f else f) <$> fs.

End Upload.

(** ** Token lifecycle manager *)

Module Auth.

Definition TOKEN_KEY : string := "access_token".
Definition REFRESH_TOKEN_KEY : string := "refresh_token".
Definition USER_KEY : string := "user_data".

Record User := mkUser {
  user_id : Z;
  username : string;
  email : string;
  role : string
}.

Record LoginResponse := mkLoginResponse {
  resp_message : string;
  accessToken : string;
  refreshToken : string;
  user : User;
  expiresIn : string
}.

(** A value produced by [JSON.parse].  Numbers are the integers, which
    doubles hold exactly below 2^53; an object lists each key once. *)
Inductive JsValue :=
| JNull
| JBool (b : bool)
| JNum (n : Z)
| JStr (s : string)
| JArr (items : list JsValue)
| JObj (fields : list (string * JsValue)).

(** A JavaScript number as the expiry arithmetic sees it. *)
Inductive Number :=
| Fin (z : Z)
| NaN.

(** The functions of the platform that the service calls.  [None] stands
    for a thrown exception. *)
Record Platform := mkPlatform {
  atob : string -> option string;
  JSON_parse : string -> option JsValue;
  JSON_stringify : User -> string;
  StringToNumber : string -> Number;
  ObjectToNumber : JsValue -> Number
}.

(** [payload[key]]: [None] is the [TypeError] of reading a property of
    [null]; [Some None] is [undefined]. *)
Fixpoint assoc (key : string) (fields : list (string * JsValue))
  : option JsValue :=
  match fields with
  | [] => None
  | (k, v) :: r => if String.eqb k key then Some v else assoc key r
  end.

Definition get_prop (payload : JsValue) (key : string)
  : option (option JsValue) :=
  match payload with
  | JNull => None
  | JObj fields => Some (assoc key fields)
  | _ => Some None
  end.

(** [Math.max(0, x)], [x * k], [x - k] and [now >= x] on numbers. *)
Definition num_mul (x : Number) (k : Z) : Number :=
  match x with Fin z => Fin (z * k) | NaN => NaN end.

Definition num_sub (x : Number) (k : Z) : Number :=
  match x with Fin z => Fin (z - k) | NaN => NaN end.

Definition num_max0 (x : Number) : Number :=
  match x with Fin z => Fin (Z.max 0 z) | NaN => NaN end.

Definition num_ge (now : Z) (x : Number) : bool :=
  match x with Fin z => z <=? now | NaN => false end.

(** What the service has told the outside world. *)
Inductive Effect :=
| PostLogout (refreshToken : string)
| PostRefresh (refreshToken : string)
| Navigate (url : string).

(** [localStorage], the two subjects' current values, the timer field,
    the timeouts that are armed (handle and delay in milliseconds), the
    next handle [setTimeout] returns, and the effects so far in order. *)
Record State := mkState {
  localStorage : gmap string string;
  currentUser : option User;
  authenticated : bool;
  refreshTokenTimer : option nat;
  timers : list (nat * Number);
  nextTimer : nat;
  effects : list Effect
}.

Definition init : State := mkState ∅ None false None [] 1 [].

Definition getAccessToken (s : State) : option string :=
  localStorage s !! TOKEN_KEY.

Definition getRefreshToken (s : State) : option string :=
  localStorage s !! REFRESH_TOKEN_KEY.

Definition clearTimeout (h : nat) (ts : list (nat * Number))
  : list (nat * Number) :=
  List.filter (fun t => negb (Nat.eqb (fst t) h)) ts.

Definition clearTokens (ls : gmap string string) : gmap string string :=
  delete USER_KEY (delete REFRESH_TOKEN_KEY (delete TOKEN_KEY ls)).

Definition logout (s : State) : State :=
  let refreshToken := getRefreshToken s in
  mkState (clearTokens (localStorage s)) None false
          (refreshTokenTimer s)
          (match refreshTokenTimer s with
           | Some h => clearTimeout h (timers s)
           | None => timers s
           end)
          (nextTimer s)
          (effects s
           ++ (match refreshToken with
               | Some rt => if Js.truthy rt then [PostLogout rt] else []
               | None => []
               end)
           ++ [Navigate "/login"]).

(** [handleError]: the error is rethrown as it came; a 401 logs out first. *)
Definition handleError (e : Js.Error) (s : State) : State * Js.Error :=
  (if Js.status_is 401 e then logout s else s, e).

Section WithPlatform.

Variable P : Platform.

Definition ToNumber (v : option JsValue) : Number :=
  match v with
  | None => NaN
  | Some JNull => Fin 0
  | Some (JBool b) => Fin (if b then 1 else 0)
  | Some (JNum n) => Fin n
  | Some (JStr s) => StringToNumber P s
  | Some o => ObjectToNumber P o
  end.

(** [JSON.parse(atob(token.split('.')[1]))]; a token without a dot
    hands [undefined] to [atob], which reads it as "undefined". *)
Definition decodePayload (token : string) : option JsValue :=
  let part := default "undefined"%string (Js.split "." token !! 1%nat) in
  match atob P part with
  | Some json => JSON_parse P json
  | None => None
  end.

(** [payload.exp * 1000], or [None] when the [try] block throws. *)
Definition expiryTime (token : string) : option Number :=
  match decodePayload token with
  | Some payload =>
      match get_prop payload "exp" with
      | Some exp => Some (num_mul (ToNumber exp) 1000)
      | None => None
      end
  | None => None
  end.

Definition isTokenExpired (token : string) (now : Z) : bool :=
  match expiryTime token with
  | Some t => num_ge now t
  | None => true
  end.

(** [!!token && !this.isTokenExpired(token)] at clock value [now]. *)
Definition isAuthenticated (s : State) (now : Z) : bool :=
  match getAccessToken s with
  | Some token => Js.truthy token && negb (isTokenExpired token now)
  | None => false
  end.

Definition scheduleTokenRefresh (now : Z) (s : State) : State :=
  match getAccessToken s with
  | None => s
  | Some token =>
      if negb (Js.truthy token) then s
      else
        match expiryTime token with
        | None => logout s
        | Some expiry =>
            let timeUntilExpiry := num_sub expiry now in
            let refreshTime :=
              num_max0 (num_sub timeUntilExpiry (2 * 60 * 1000)) in
            let cleared :=
              match refreshTokenTimer s with
              | Some h => clearTimeout h (timers s)
              | None => timers s
              end in
            mkState (localStorage s) (currentUser s) (authenticated s)
                    (Some (nextTimer s))
                    (cleared ++ [(nextTimer s, refreshTime)])
                    (S (nextTimer s)) (effects s)
        end
  end.

Definition handleAuthSuccess (response : LoginResponse) (now : Z)
    (s : State) : State :=
  let ls :=
    <[USER_KEY := JSON_stringify P (user response)]>
      (<[REFRESH_TOKEN_KEY := refreshToken response]>
         (<[TOKEN_KEY := accessToken response]> (localStorage s))) in
  scheduleTokenRefresh now
    (mkState ls (Some (user response)) true (refreshTokenTimer s)
             (timers s) (nextTimer s) (effects s)).

(** The two ways the login request can end, as the pipe of [login]
    treats them: what the caller's subscription receives, and the state. *)
Definition login (outcome : LoginResponse + Js.Error) (now : Z) (s : State)
  : State * (LoginResponse + Js.Error) :=
  match outcome with
  | inl response => (handleAuthSuccess response now s, inl response)
  | inr e => let '(s', e') := handleError e s in (s', inr e')
  end.

(** [refreshToken()], up to the point where its request is sent:
    [inl rt] when the POST with [rt] goes out, [inr e] when the returned
    observable fails at once. *)
Definition refreshToken_start (s : State) : State * (string + Js.Error) :=
  match getRefreshToken s with
  | Some rt =>
      if Js.truthy rt
      then (mkState (localStorage s) (currentUser s) (authenticated s)
                    (refreshTokenTimer s) (timers s) (nextTimer s)
                    (effects s ++ [PostRefresh rt]),
            inl rt)
      else (logout s, inr (Js.Plain "No refresh token available"))
  | None => (logout s, inr (Js.Plain "No refresh token available"))
  end.

(** The [tap] and the [catchError] of [refreshToken()]. *)
Definition refreshToken_next (response : LoginResponse) (now : Z)
    (s : State) : State :=
  handleAuthSuccess response now s.

Definition refreshToken_error (e : Js.Error) (s : State)
  : State * Js.Error :=
  (logout s, e).

End WithPlatform.

End Auth.

(** ** Request authorization coordinator *)

Module Interceptor.

(** An outgoing [HttpRequest] of the application, by its number. *)
Definition Request : Type := nat.

(** Who subscribed to a call of [authService.refreshToken()]: the
    interceptor, on behalf of the request that got the 401, the callback
    of the proactive refresh timer, [AuthGuard.checkAuth]
    (frontend/src/app/guards/auth.guard.ts), or the interceptor again, on
    behalf of the refresh request of an earlier call: that request passes
    through [intercept] like any other, and when it comes back 401
    [handle401Error] is entered with it. *)
Inductive Origin :=
| From401 (request : Request)
| FromTimer
| FromGuard
| FromPost (call : nat).

(** Where the refresh request of a call stands: sent by [http.post]
    through [intercept]; back with a 401 and subscribed to
    [refreshTokenSubject]; back with a 401 and behind the refresh call that
    [handle401Error] started for it; sent again by the waiting branch, with
    no [catchError] around it; sent again by the [switchMap] of the branch
    that started a refresh, inside that branch's [catchError]. *)
Inductive Phase :=
| Sent
| Waiting
| Nested
| Resent
| ResentGuarded.

(** A call of [refreshToken()] whose observable has not ended yet, with
    the refresh token in its body and whether [intercept] found an access
    token to attach when the request was sent. *)
Record RefreshCall := mkCall {
  call_id : nat;
  sent_token : string;
  origin : Origin;
  attached : bool;
  phase : Phase
}.

(** What [handle401Error] did with a request of the application: sent it
    again with a token through [next.handle], or failed it towards its
    caller; what a route guard answered; and the failure of a request that
    had been sent again, passed on by the [catchError] of
    [handle401Error]. *)
Inductive Outcome :=
| Retried (request : Request) (token : string)
| Failed (request : Request) (e : Js.Error)
| Guard (allowed : bool)
| Rethrown (request : Request) (e : Js.Error).

(** The interceptor's two fields, the requests of the application
    subscribed to [refreshTokenSubject] behind
    [filter(token => token != null), take(1)], the refresh calls that have
    not ended, the outcomes so far, and the requests that the [switchMap]
    of [handle401Error] has sent again and that are still inside its
    [catchError]. *)
Record State := mkState {
  auth : Auth.State;
  isRefreshing : bool;
  refreshTokenSubject : option string;
  waiting : list Request;
  refreshCalls : list RefreshCall;
  nextCall : nat;
  outcomes : list Outcome;
  retrying : list Request
}.

Definition init (a : Auth.State) : State :=
  mkState a false None [] [] 0 [] [].

(** The calls that [handle401Error] started. *)
Definition is_from401 (c : RefreshCall) : bool :=
  match origin c with
  | From401 _ | FromPost _ => true
  | FromTimer | FromGuard => false
  end.

(** The refresh calls that the interceptor started and that have not
    ended. *)
Definition interceptorCalls (s : State) : list RefreshCall :=
  List.filter is_from401 (refreshCalls s).


(** What can happen to the coordinator.  [RequestFailed] is the
    [catchError] of [intercept] being entered for a request of the
    application, [TimerFired] a timeout running its callback, [GuardCheck]
    the router asking the guard at clock value [now].  [RefreshResponse]
    and [RefreshError] are the answers to the refresh request of a call
    that is on the wire, at clock value [now].  [RetryFailed] is the
    failure of a request of the application that had been sent again. *)
Inductive Event :=
| RequestFailed (request : Request) (authToken : option string) (e : Js.Error)
| TimerFired (handle : nat)
| GuardCheck (now : Z)
| RefreshResponse (call : nat) (response : Auth.LoginResponse) (now : Z)
| RefreshError (call : nat) (e : Js.HttpError)
| RetryFailed (request : Request) (e : Js.HttpError).

(** The [request] argument of [handle401Error]: a request of the
    application, or the refresh request of a call. *)
Inductive Sender :=
| App (request : Request)
| Post (call : nat).

Definition origin_of (w : Sender) : Origin :=
  match w with
  | App request => From401 request
  | Post k => FromPost k
  end.

Definition set_auth (a : Auth.State) (s : State) : State :=
  mkState a (isRefreshing s) (refreshTokenSubject s) (waiting s)
          (refreshCalls s) (nextCall s) (outcomes s) (retrying s).

Definition emit (o : list Outcome) (s : State) : State :=
  mkState (auth s) (isRefreshing s) (refreshTokenSubject s) (waiting s)
          (refreshCalls s) (nextCall s) (outcomes s ++ o) (retrying s).

Definition set_calls (l : list RefreshCall) (s : State) : State :=
  mkState (auth s) (isRefreshing s) (refreshTokenSubject s) (waiting s)
          l (nextCall s) (outcomes s) (retrying s).

Definition find_call (k : nat) (s : State) : option (nat * RefreshCall) :=
  match Js.findIndex (fun c => Nat.eqb (call_id c) k) (refreshCalls s) with
  | Some i =>
      match refreshCalls s !! i with
      | Some c => Some (i, c)
      | None => None
      end
  | None => None
  end.

Definition remove_call (i : nat) (s : State) : State :=
  set_calls (delete i (refreshCalls s)) s.

Definition with_phase (ph : Phase) (c : RefreshCall) : RefreshCall :=
  mkCall (call_id c) (sent_token c) (origin c) (attached c) ph.

Definition set_phase (k : nat) (ph : Phase) (s : State) : State :=
  match find_call k s with
  | Some (i, c) => set_calls (<[i := with_phase ph c]> (refreshCalls s)) s
  | None => s
  end.

(** Whether the refresh request of a call is on the wire. *)
Definition on_wire (ph : Phase) : bool :=
  match ph with
  | Sent | Resent | ResentGuarded => true
  | Waiting | Nested => false
  end.

(** A subscription to [authService.refreshToken()]: either the request
    goes out through [intercept], which attaches the access token stored at
    that moment, and the call joins [refreshCalls], or the observable fails
    at once with the returned error. *)
Definition subscribeRefresh (o : Origin) (s : State)
  : State * option Js.Error :=
  match Auth.refreshToken_start (auth s) with
  | (a, inl rt) =>
      (mkState a (isRefreshing s) (refreshTokenSubject s) (waiting s)
               (refreshCalls s
                ++ [mkCall (nextCall s) rt o
                           (Js.truthy_opt (Auth.getAccessToken a)) Sent])
               (S (nextCall s)) (outcomes s) (retrying s),
       None)
  | (a, inr e) => (set_auth a s, Some e)
  end.

(** [redirectToLogin] of the guard, then its answer [of(false)]. *)
Definition guardRefused (s : State) : State :=
  let a := auth s in
  emit [Guard false]
       (set_auth
          (Auth.mkState (Auth.localStorage a) (Auth.currentUser a)
             (Auth.authenticated a) (Auth.refreshTokenTimer a)
             (Auth.timers a) (Auth.nextTimer a)
             (Auth.effects a ++ [Auth.Navigate "/login"]))
          s).

(** The body of the [catchError] inside [handle401Error], before it
    throws the error on. *)
Definition catch401 (s : State) : State :=
  mkState (Auth.logout (auth s)) false (refreshTokenSubject s) (waiting s)
          (refreshCalls s) (nextCall s) (outcomes s) (retrying s).

(** An error reaches the pipe of call [k] of [refreshToken()]: its
    [catchError] logs out and throws the error on to the subscriber, and
    when the subscriber is [handle401Error] on behalf of another refresh
    request, to the pipe of that call in turn.  Each round takes one call
    out of [refreshCalls], so the number of calls is fuel enough. *)
Fixpoint fail_post (fuel : nat) (k : nat) (e : Js.Error) (s : State) : State :=
  match fuel with
  | O => s
  | S n =>
      match find_call k s with
      | Some (i, c) =>
          let s1 := remove_call i s in
          let '(a, e') := Auth.refreshToken_error e (auth s1) in
          let s2 := set_auth a s1 in
          match origin c with
          | From401 request => emit [Failed request e'] (catch401 s2)
          | FromPost k0 => fail_post n k0 e' (catch401 s2)
          | FromTimer => s2
          | FromGuard => guardRefused s2
          end
      | None => s
      end
  end.

(** An error thrown towards the sender of a request. *)
Definition fail_sender (w : Sender) (e : Js.Error) (s : State) : State :=
  match w with
  | App request => emit [Failed request e] s
  | Post k => fail_post (length (refreshCalls s)) k e s
  end.

(** The [catchError] around the refresh inside [handle401Error]. *)
Definition refreshFailed (w : Sender) (e : Js.Error) (s : State) : State :=
  fail_sender w e (catch401 s).

(** The sender stays behind the refresh call started for it. *)
Definition hold (w : Sender) (s : State) : State :=
  match w with
  | App _ => s
  | Post k => set_phase k Nested s
  end.

(** The waiting branch when the subject holds a token: the request is
    sent again at once. *)
Definition resend (w : Sender) (token : string) (s : State) : State :=
  match w with
  | App request => emit [Retried request token] s
  | Post k => set_phase k Resent s
  end.

(** The waiting branch when the subject holds [null]. *)
Definition park (w : Sender) (s : State) : State :=
  match w with
  | App request =>
      mkState (auth s) (isRefreshing s) (refreshTokenSubject s)
              (waiting s ++ [request]) (refreshCalls s) (nextCall s)
              (outcomes s) (retrying s)
  | Post k => set_phase k Waiting s
  end.

Definition handle401Error (w : Sender) (s : State) : State :=
  if negb (isRefreshing s) then
    let s1 := mkState (auth s) true None (waiting s) (refreshCalls s)
                      (nextCall s) (outcomes s) (retrying s) in
    match Auth.getRefreshToken (auth s1) with
    | Some rt =>
        if Js.truthy rt then
          match subscribeRefresh (origin_of w) s1 with
          | (s2, None) => hold w s2
          | (s2, Some e) => refreshFailed w e s2
          end
        else
          refreshFailed w (Js.Plain "No refresh token available") s1
    | None =>
        refreshFailed w (Js.Plain "No refresh token available") s1
    end
  else
    match refreshTokenSubject s with
    | Some token => resend w token s
    | None => park w s
    end.

(** The [catchError] of [intercept] for a request of the application,
    with the [authToken] it closed over when the request was sent. *)
Definition intercept_error (request : Request) (authToken : option string)
    (e : Js.Error) (s : State) : State :=
  if Js.status_is 401 e && Js.truthy_opt authToken
  then handle401Error (App request) s
  else emit [Failed request e] s.

(** The timer callback: [this.refreshToken().subscribe(...)], both of
    whose callbacks only log. *)
Definition timerFired (h : nat) (s : State) : State :=
  if existsb (fun t => Nat.eqb (fst t) h) (Auth.timers (auth s)) then
    let a := auth s in
    let a' :=
      Auth.mkState (Auth.localStorage a) (Auth.currentUser a)
        (Auth.authenticated a) (Auth.refreshTokenTimer a)
        (Auth.clearTimeout h (Auth.timers a)) (Auth.nextTimer a)
        (Auth.effects a) in
    fst (subscribeRefresh FromTimer (set_auth a' s))
  else s.

(** [refreshTokenSubject.next(token)]: every subscriber behind the filter
    sends its request again, the requests of the application and the
    refresh requests alike. *)
Definition notify (token : string) (s : State) : State :=
  mkState (auth s) (isRefreshing s) (Some token) []
          (map (fun c => match phase c with
                         | Waiting => with_phase Resent c
                         | _ => c
                         end) (refreshCalls s))
          (nextCall s)
          (outcomes s ++ map (fun w => Retried w token) (waiting s))
          (retrying s).

(** What the subscriber of a call does with its answer, after the [tap]
    of [refreshToken()]: the [switchMap] of [handle401Error], nothing for
    the timer, [map(() => true)] for the guard. *)
Definition refreshed (o : Origin) (token : string) (s : State) : State :=
  match o with
  | From401 request =>
      let s1 :=
        notify token
          (mkState (auth s) false (refreshTokenSubject s) (waiting s)
                   (refreshCalls s) (nextCall s) (outcomes s) (retrying s)) in
      mkState (auth s1) (isRefreshing s1) (refreshTokenSubject s1)
              (waiting s1) (refreshCalls s1) (nextCall s1)
              (outcomes s1 ++ [Retried request token])
              (retrying s1 ++ [request])
  | FromPost k0 =>
      let s1 :=
        notify token
          (mkState (auth s) false (refreshTokenSubject s) (waiting s)
                   (refreshCalls s) (nextCall s) (outcomes s) (retrying s)) in
      set_phase k0 ResentGuarded s1
  | FromTimer => s
  | FromGuard => emit [Guard true] s
  end.

Section WithPlatform.

Variable P : Auth.Platform.

(** [AuthGuard.checkAuth], which both [canActivate] and
    [canActivateChild] call. *)
Definition checkAuth (now : Z) (s : State) : State :=
  if Auth.isAuthenticated P (auth s) now then emit [Guard true] s
  else
    match Auth.getRefreshToken (auth s) with
    | Some rt =>
        if Js.truthy rt then
          match subscribeRefresh FromGuard s with
          | (s1, None) => s1
          | (s1, Some _) => guardRefused s1
          end
        else guardRefused s
    | None => guardRefused s
    end.

(** The refresh request of call [k] is answered with a 2xx: the [tap] of
    [refreshToken()] runs, then the subscriber's side. *)
Definition refreshResponse (k : nat) (response : Auth.LoginResponse)
    (now : Z) (s : State) : State :=
  match find_call k s with
  | Some (i, c) =>
      if on_wire (phase c) then
        let s1 := remove_call i s in
        let s2 :=
          set_auth (Auth.refreshToken_next P response now (auth s1)) s1 in
        refreshed (origin c) (Auth.accessToken response) s2
      else s
  | None => s
  end.

(** The refresh request of call [k] fails.  Sent through [intercept], a
    401 to a request that carried a token enters [handle401Error] like the
    401 of any request; every other failure reaches the [catchError] of
    [refreshToken()].  Sent again, the failure reaches that [catchError]
    directly, or through the [catchError] of [handle401Error] when the
    [switchMap] of the branch that started a refresh had sent it. *)
Definition refreshError (k : nat) (e : Js.HttpError) (s : State) : State :=
  match find_call k s with
  | Some (_, c) =>
      match phase c with
      | Sent =>
          if Js.status_is 401 (Js.Http e) && attached c
          then handle401Error (Post k) s
          else fail_sender (Post k) (Js.Http e) s
      | Resent => fail_sender (Post k) (Js.Http e) s
      | ResentGuarded => refreshFailed (Post k) (Js.Http e) s
      | Waiting | Nested => s
      end
  | None => s
  end.

Definition remove_first (r : Request) (l : list Request) : list Request :=
  match Js.findIndex (Nat.eqb r) l with
  | Some i => delete i l
  | None => l
  end.

(** A request of the application that the [switchMap] of
    [handle401Error] had sent again fails: the [catchError] after the
    [switchMap] receives the failure as it receives the failure of the
    refresh.  The failure of a request that the waiting branch had sent
    again passes no [catchError] of the interceptor. *)
Definition retryFailed (r : Request) (e : Js.HttpError) (s : State) : State :=
  if existsb (Nat.eqb r) (retrying s) then
    emit [Rethrown r (Js.Http e)]
         (catch401
            (mkState (auth s) (isRefreshing s) (refreshTokenSubject s)
                     (waiting s) (refreshCalls s) (nextCall s) (outcomes s)
                     (remove_first r (retrying s))))
  else s.

Definition handle (s : State) (ev : Event) : State :=
  match ev with
  | RequestFailed r t e => intercept_error r t e s
  | TimerFired h => timerFired h s
  | GuardCheck now => checkAuth now s
  | RefreshResponse k r now => refreshResponse k r now s
  | RefreshError k e => refreshError k e s
  | RetryFailed r e => retryFailed r e s
  end.

Definition run (evs : list Event) (s : State) : State :=
  fold_left handle evs s.



End WithPlatform.

End Interceptor.

(** ** Concrete data for the worked scenarios *)

Module Demo.

(** An id generator returning "a", "b", "c", ... *)
Definition gid (n : nat) : string := String (ascii_of_nat (97 + n)) EmptyString.

Definition pdf (n : string) : Upload.File :=
  Upload.mkFile n 1024 "application/pdf".

Definition four : list Upload.File :=
  [pdf "A.pdf"; pdf "B.pdf"; pdf "C.pdf"; pdf "D.pdf"]%string.

(** 101 MB and not an allowed type. *)
Definition bigExe : Upload.File :=
  Upload.mkFile "big.exe" (101 * 1024 * 1024) "application/x-msdownload".

Definition ok1 : Upload.UploadResult := Upload.mkResult 1 [].

(** A, B, C and D queued in a service whose [maxConcurrent] is 1. *)
Definition oneSlot : Upload.State :=
  let s := fst (Upload.addFilesToQueue gid four Upload.init) in
  Upload.mutate (Upload.mkQueue (Upload.files (Upload.queue s)) 0 1) s.

Definition dq : string := String (ascii_of_nat 34) EmptyString.

(** The text [{"exp":1000}]. *)
Definition json_exp1000 : string :=
  ("{" ++ dq ++ "exp" ++ dq ++ ":1000}")%string.

Definition testuser : Auth.User :=
  Auth.mkUser 1 "testuser" "test@example.com" "user".

Definition json_testuser : string :=
  ("{" ++ dq ++ "id" ++ dq ++ ":1,"
       ++ dq ++ "username" ++ dq ++ ":" ++ dq ++ "testuser" ++ dq ++ ","
       ++ dq ++ "email" ++ dq ++ ":" ++ dq ++ "test@example.com" ++ dq ++ ","
       ++ dq ++ "role" ++ dq ++ ":" ++ dq ++ "user" ++ dq ++ "}")%string.

(** The platform on the values the scenarios use: base64 "e30" is [{}],
    "eyJleHAiOjEwMDB9" is [{"exp":1000}]; the only user stringified is
    [testuser]; no scenario converts a string or an object to a number. *)
Definition platform : Auth.Platform :=
  Auth.mkPlatform
    (fun s => if String.eqb s "e30" then Some "{}"%string
              else if String.eqb s "eyJleHAiOjEwMDB9" then Some json_exp1000
              else None)
    (fun s => if String.eqb s "{}" then Some (Auth.JObj [])
              else if String.eqb s json_exp1000
                   then Some (Auth.JObj [("exp"%string, Auth.JNum 1000)])
              else None)
    (fun u => json_testuser)
    (fun _ => Auth.NaN)
    (fun _ => Auth.NaN).

(** A token whose payload is [{"exp":1000}] and one whose payload is [{}]. *)
Definition token_exp1000 : string := "h.eyJleHAiOjEwMDB9.s".
Definition token_noexp : string := "h.e30.s".

Definition loginResponse : Auth.LoginResponse :=
  Auth.mkLoginResponse "Login successful" token_exp1000 "refresh-1" testuser
                       "3600".

(** The session right after a successful login at clock 0. *)
Definition session : Auth.State :=
  fst (Auth.login platform (inl loginResponse) 0 Auth.init).

(** The session after a login answered at clock 2,000,000 ms, when the
    token it carries is already past its expiry: the refresh timer is armed
    with delay 0. *)
Definition session_late : Auth.State :=
  fst (Auth.login platform (inl loginResponse) 2000000 Auth.init).

(** A store that holds only an access token without [exp]. *)
Definition session_noexp : Auth.State :=
  Auth.mkState (<[Auth.TOKEN_KEY := token_noexp]> ∅) None false None [] 1 [].

(** A name of [n] times the letter e with an acute accent, two bytes
    (195, 169) and one UTF-16 code unit each. *)
Fixpoint accented (n : nat) : string :=
  match n with
  | O => EmptyString
  | S k => String (ascii_of_nat 195) (String (ascii_of_nat 169) (accented k))
  end.

Definition unauthorized : Js.HttpError :=
  Js.mkHttpError 401 (Some "Invalid credentials"%string)
                 (Some "Http failure response"%string).

Definition serverError : Js.HttpError :=
  Js.mkHttpError 500 None (Some "Http failure response"%string).

End Demo.

(** ** The upload screen, a caller of the upload service *)

Module UploadComponent.

(** [getPendingUploadsCount] and [getCompletedUploadsCount] of
    upload.component.ts, on the queue value the screen last received. *)
Definition getPendingUploadsCount (q : Upload.UploadQueue) : nat :=
  length (List.filter Upload.is_pending (Upload.files q)).

Definition is_settled (f : Upload.FileUpload) : bool :=
  Upload.status_eqb (Upload.status f) Upload.Success
  || Upload.status_eqb (Upload.status f) Upload.Failed.

Definition getCompletedUploadsCount (q : Upload.UploadQueue) : nat :=
  length (List.filter is_settled (Upload.files q)).

(** [getFileIcon]: a [switch] on [filename.split('.').pop()?.toLowerCase()]. *)
Definition getFileIcon (filename : string) : string :=
  match option_map Js.toLowerCase (Js.pop (Js.split "." filename)) with
  | Some extension =>
      if String.eqb extension "pdf" then "picture_as_pdf"
      else if String.eqb extension "docx" || String.eqb extension "doc"
      then "description"
      else if String.eqb extension "txt" then "text_snippet"
      else "insert_drive_file"
  | None => "insert_drive_file"
  end%string.

End UploadComponent.

(** ** Start of the token lifecycle manager after a page load *)

Module AuthInit.

Section WithPlatform.

Variable P : Auth.Platform.

(** [JSON.parse] on the text under [USER_KEY]: [None] when it throws,
    otherwise the value, which the code hands to the subject as a [User]
    without looking at it. *)
Variable parseUser : string -> option Auth.User.

(** [initializeAuth], which the constructor runs at clock value [now]. *)
Definition initializeAuth (now : Z) (s : Auth.State) : Auth.State :=
  let token := Auth.getAccessToken s in
  let userData := Auth.localStorage s !! Auth.USER_KEY in
  if Js.truthy_opt token && Js.truthy_opt userData then
    match parseUser (default ""%string userData) with
    | Some user =>
        Auth.scheduleTokenRefresh P now
          (Auth.mkState (Auth.localStorage s) (Some user) true
             (Auth.refreshTokenTimer s) (Auth.timers s) (Auth.nextTimer s)
             (Auth.effects s))
    | None => Auth.logout s
    end
  else s.

(** A new instance of the service over the storage a previous page left:
    both subjects at their initial value, no timer. *)
Definition construct (ls : gmap string string) (now : Z) : Auth.State :=
  initializeAuth now (Auth.mkState ls None false None [] 1 []).

End WithPlatform.

End AuthInit.

(** ** The session as its callers drive it *)

Module Session.

(** Besides the events of the coordinator, the login screen subscribes to
    [login] (whose request ends in one of two ways) and the screens call
    [logout]. *)
Inductive Call :=
| Net (ev : Interceptor.Event)
| Login (outcome : Auth.LoginResponse + Js.Error) (now : Z)
| Logout.

Definition step (P : Auth.Platform) (s : Interceptor.State) (c : Call)
  : Interceptor.State :=
  match c with
  | Net ev => Interceptor.handle P s ev
  | Login outcome now =>
      Interceptor.set_auth (fst (Auth.login P outcome now (Interceptor.auth s)))
                           s
  | Logout => Interceptor.set_auth (Auth.logout (Interceptor.auth s)) s
  end.

Definition run (P : Auth.Platform) (cs : list Call) (s : Interceptor.State)
  : Interceptor.State :=
  fold_left (step P) cs s.

End Session.

(** ** Vocabulary of the further statements *)

Module Extra.

(** Events that a request in flight delivers, as opposed to calls of the
    service. *)
Definition is_completion (ev : Upload.Event) : bool :=
  match ev with
  | Upload.Progress _ _ _ | Upload.Response _ _ | Upload.Failure _ _ => true
  | _ => false
  end.

(** The responses among the events that report a stored file. *)
Definition successful_responses (evs : list Upload.Event) : nat :=
  length (List.filter
            (fun ev => match ev with
                       | Upload.Response _ r => Upload.successCount r >? 0
                       | _ => false
                       end) evs).

(** Whether [validateFile] accepts the candidate. *)
Definition valid (f : Upload.File) : bool :=
  Upload.isValid (Upload.validateFile f).

(** Whether the character occurs in the string. *)
Fixpoint has_char (c : ascii) (s : string) : bool :=
  match s with
  | EmptyString => false
  | String a r => Ascii.eqb a c || has_char c r
  end.

(** An id generator that never repeats: "", "x", "xx", ... *)
Fixpoint uid (n : nat) : string :=
  match n with
  | O => EmptyString
  | S k => String "x" (uid k)
  end.

(** The armed timeouts all carry the handle the service holds, and there is
    at most one. *)
Definition one_timer (a : Auth.State) : Prop :=
  Forall (fun t => Auth.refreshTokenTimer a = Some (fst t)) (Auth.timers a)
  /\ (length (Auth.timers a) <= 1)%nat.






Definition guard_checks (evs : list Interceptor.Event) : nat :=
  length (List.filter (fun ev => match ev with
                                 | Interceptor.GuardCheck _ => true
                                 | _ => false
                                 end) evs).

Definition guard_answers (s : Interceptor.State) : nat :=
  length (List.filter (fun o => match o with
                                | Interceptor.Guard _ => true
                                | _ => false
                                end) (Interceptor.outcomes s)).

Definition guard_calls (s : Interceptor.State) : nat :=
  length (List.filter (fun c => match Interceptor.origin c with
                                | Interceptor.FromGuard => true
                                | _ => false
                                end) (Interceptor.refreshCalls s)).

End Extra.

(** * Properties *)

(** ** The upload queue *)

Module UploadFacts.

Import Upload.

(** *** Writing into the queue *)

Lemma findIndex_Some {A} (p : A -> bool) (l : list A) (i : nat) :
  Js.findIndex p l = Some i -> exists x, l !! i = Some x /\ p x = true.
Proof.
  revert i. induction l as [|y l IH]; intros i; simpl; [discriminate|].
  destruct (p y) eqn:Hy.
  - intros [= <-]. exists y. split; [reflexivity | exact Hy].
  - destruct (Js.findIndex p l) as [n|]; simpl; [|discriminate].
    intros [= <-]. apply (IH n). reflexivity.
Qed.

Lemma findIndex_None {A} (p : A -> bool) (l : list A) :
  Js.findIndex p l = None -> forall x, x ∈ l -> p x = false.
Proof.
  induction l as [|y l IH]; simpl; intros H x Hx.
  - inversion Hx.
  - destruct (p y) eqn:Hy; [discriminate|].
    destruct (Js.findIndex p l); [discriminate|].
    apply elem_of_cons in Hx as [->|Hx]; [exact Hy|].
    apply IH; [reflexivity | exact Hx].
Qed.

Lemma has_id_true i f : has_id i f = true <-> id f = i.
Proof. unfold has_id. apply String.eqb_eq. Qed.

(** Writing a new version of an upload over the old one keeps the ids. *)
Lemma insert_keeps_ids (l : list FileUpload) n old new :
  l !! n = Some old -> id new = id old -> id <$> <[n := new]> l = id <$> l.
Proof.
  intros Hn Hid. rewrite list_fmap_insert, Hid.
  apply list_insert_id. rewrite list_lookup_fmap, Hn. reflexivity.
Qed.

(** With distinct ids, writing through the first index of an id is the
    same as rewriting every upload of that id. *)
Lemma insert_as_fmap (g : FileUpload -> FileUpload) (l : list FileUpload)
    i n old :
  NoDup (id <$> l) -> l !! n = Some old -> has_id i old = true ->
  <[n := g old]> l = (fun f => if has_id i f then g f else f) <$> l.
Proof.
  intros Hnd Hn Hold. apply list_eq. intros j.
  rewrite list_lookup_fmap.
  destruct (decide (j = n)) as [->|Hne].
  - rewrite list_lookup_insert_eq by (eapply lookup_lt_Some; exact Hn).
    rewrite Hn. simpl. rewrite Hold. reflexivity.
  - rewrite list_lookup_insert_ne by congruence.
    destruct (l !! j) as [y|] eqn:Hj; simpl; [|reflexivity].
    destruct (has_id i y) eqn:Hy; [|reflexivity].
    exfalso. apply Hne.
    apply has_id_true in Hy. apply has_id_true in Hold.
    eapply (NoDup_lookup (id <$> l) j n i Hnd).
    + rewrite list_lookup_fmap, Hj. simpl. congruence.
    + rewrite list_lookup_fmap, Hn. simpl. congruence.
Qed.

Lemma updateFileStatus_ids i st e s : ids (updateFileStatus i st e s) = ids s.
Proof.
  unfold updateFileStatus, ids.
  destruct (Js.findIndex _ _) as [n|]; [|reflexivity].
  destruct (_ !! n) as [old|] eqn:Hn; [|reflexivity].
  simpl. apply (insert_keeps_ids _ _ old); [exact Hn | reflexivity].
Qed.


Lemma updateFileStatus_files i st e s :
  NoDup (ids s) ->
  files (queue (updateFileStatus i st e s))
  = (fun f => if has_id i f then with_status st e f else f) <$> files (queue s).
Proof.
  intros Hnd. unfold updateFileStatus.
  destruct (Js.findIndex _ _) as [n|] eqn:Hf.
  - destruct (findIndex_Some _ _ _ Hf) as (x & Hx & Hp).
    rewrite Hx. simpl. apply insert_as_fmap; assumption.
  - simpl. pose proof (findIndex_None _ _ Hf) as Hall.
    symmetry. rewrite <- (list_fmap_id (files (queue s))) at 2.
    apply list_fmap_ext. intros j x Hx. simpl.
    rewrite (Hall x); [reflexivity|]. eapply list_elem_of_lookup_2. exact Hx.
Qed.

Lemma updateFileStatus_counters i st e s :
  activeUploads (queue (updateFileStatus i st e s)) = activeUploads (queue s)
  /\ maxConcurrent (queue (updateFileStatus i st e s)) = maxConcurrent (queue s)
  /\ requests (updateFileStatus i st e s) = requests s.
Proof.
  unfold updateFileStatus.
  destruct (Js.findIndex _ _) as [n|]; [|auto].
  destruct (_ !! n); auto.
Qed.

Lemma with_status_uploading_idem f :
  with_status Uploading None (with_status Uploading None f)
  = with_status Uploading None f.
Proof. reflexivity. Qed.

Lemma startSingleUpload_spec f s :
  NoDup (ids s) -> has_file f = true ->
  let s' := startSingleUpload f s in
  files (queue s') = mark_uploading [id f] (files (queue s))
  /\ activeUploads (queue s') = activeUploads (queue s) + 1
  /\ maxConcurrent (queue s') = maxConcurrent (queue s)
  /\ requests s' = requests s ++ [id f].
Proof.
  intros Hnd Hf. unfold startSingleUpload, has_file in *.
  destruct (file f); [|discriminate]. simpl.
  destruct (updateFileStatus_counters (id f) Uploading None s)
    as (Ha & Hm & Hr).
  rewrite Ha, Hm, Hr, (updateFileStatus_files _ _ _ _ Hnd).
  repeat split. unfold mark_uploading.
  apply list_fmap_ext. intros j x _. simpl.
  destruct (has_id (id f) x) eqn:Hx.
  - apply has_id_true in Hx. rewrite bool_decide_eq_true_2; [reflexivity|].
    rewrite Hx. apply list_elem_of_singleton. reflexivity.
  - rewrite bool_decide_eq_false_2; [reflexivity|].
    intros Hin. apply list_elem_of_singleton in Hin.
    apply has_id_true in Hin. congruence.
Qed.

Lemma mark_uploading_ids l fs : id <$> mark_uploading l fs = id <$> fs.
Proof.
  unfold mark_uploading. rewrite <- list_fmap_compose.
  apply list_fmap_ext. intros j x _. simpl.
  case_bool_decide; reflexivity.
Qed.

Lemma mark_uploading_cons i l fs :
  mark_uploading l (mark_uploading [i] fs) = mark_uploading (i :: l) fs.
Proof.
  unfold mark_uploading. rewrite <- list_fmap_compose.
  apply list_fmap_ext. intros j x _. simpl.
  destruct (decide (id x = i)) as [<-|Hne].
  - rewrite (bool_decide_eq_true_2 (id x ∈ [id x]))
      by (apply list_elem_of_singleton; reflexivity).
    rewrite (bool_decide_eq_true_2 (id x ∈ id x :: l))
      by (apply elem_of_cons; left; reflexivity).
    simpl. case_bool_decide; reflexivity.
  - rewrite (bool_decide_eq_false_2 (id x ∈ [i]))
      by (intros H; apply list_elem_of_singleton in H; congruence).
    destruct (bool_decide (id x ∈ l)) eqn:Hl.
    + apply bool_decide_eq_true_1 in Hl.
      rewrite bool_decide_eq_true_2; [reflexivity|].
      apply elem_of_cons. right. exact Hl.
    + apply bool_decide_eq_false_1 in Hl.
      rewrite bool_decide_eq_false_2; [reflexivity|].
      intros H. apply elem_of_cons in H as [H|H]; [congruence | contradiction].
Qed.

Lemma mark_uploading_nil fs : mark_uploading [] fs = fs.
Proof.
  unfold mark_uploading. rewrite <- (list_fmap_id fs) at 2.
  apply list_fmap_ext. intros j x _. reflexivity.
Qed.

Lemma fold_start_spec (L : list FileUpload) : forall s,
  NoDup (ids s) -> Forall (fun f => has_file f = true) L ->
  let s' := fold_left (fun s f => startSingleUpload f s) L s in
  files (queue s') = mark_uploading (id <$> L) (files (queue s))
  /\ activeUploads (queue s') = activeUploads (queue s) + Z.of_nat (length L)
  /\ maxConcurrent (queue s') = maxConcurrent (queue s)
  /\ requests s' = requests s ++ (id <$> L).
Proof.
  induction L as [|f L IH]; intros s Hnd HL.
  - simpl. rewrite mark_uploading_nil, app_nil_r. repeat split; lia.
  - apply Forall_cons in HL as [Hf HL].
    destruct (startSingleUpload_spec f s Hnd Hf) as (F1 & A1 & M1 & R1).
    assert (Hnd1 : NoDup (ids (startSingleUpload f s))).
    { unfold ids. rewrite F1, mark_uploading_ids. exact Hnd. }
    destruct (IH (startSingleUpload f s) Hnd1 HL) as (F2 & A2 & M2 & R2).
    cbn [fold_left]. cbv zeta in *.
    rewrite F2, A2, M2, R2, F1, A1, M1, R1.
    rewrite mark_uploading_cons, <- app_assoc. cbn [length fmap list_fmap app].
    repeat split; lia.
Qed.

Lemma Forall_filter_bool {A} (P : A -> Prop) (p : A -> bool) (l : list A) :
  Forall P l -> Forall P (List.filter p l).
Proof.
  induction 1 as [|x l Hx _ IH]; simpl; [constructor|].
  destruct (p x); [constructor; assumption | exact IH].
Qed.

Lemma first_pending_nil_when_idle s :
  (maxConcurrent (queue s) - activeUploads (queue s) >? 0)
  && (0 <? length (List.filter is_pending (files (queue s))))%nat = false ->
  first_pending (queue s) = [].
Proof.
  intros H. unfold first_pending, slots.
  apply andb_false_iff in H as [H|H].
  - rewrite Z.gtb_ltb in H. apply Z.ltb_ge in H.
    replace (Z.to_nat _) with O by lia. reflexivity.
  - apply Nat.ltb_ge in H.
    destruct (List.filter _ _); [|simpl in H; lia].
    simpl. apply take_nil.
Qed.

Lemma processUploadQueue_spec s :
  NoDup (ids s) -> Forall (fun f => has_file f = true) (files (queue s)) ->
  let s' := processUploadQueue s in
  files (queue s') = mark_uploading (first_pending (queue s)) (files (queue s))
  /\ activeUploads (queue s')
     = activeUploads (queue s) + Z.of_nat (length (first_pending (queue s)))
  /\ maxConcurrent (queue s') = maxConcurrent (queue s)
  /\ requests s' = requests s ++ first_pending (queue s).
Proof.
  intros Hnd Hfiles. unfold processUploadQueue.
  destruct (_ && _) eqn:Hc.
  - pose proof (fold_start_spec
      (take (Z.to_nat (maxConcurrent (queue s) - activeUploads (queue s)))
            (List.filter is_pending (files (queue s)))) s Hnd) as H.
    rewrite fmap_take, length_take in H.
    unfold first_pending, slots. rewrite length_take, length_fmap.
    apply H. apply Forall_take, Forall_filter_bool, Hfiles.
  - rewrite (first_pending_nil_when_idle s Hc), mark_uploading_nil, app_nil_r.
    simpl. repeat split; lia.
Qed.

(** Among the pending uploads the started ones form a prefix: an upload
    queued before a started pending one is started as well. *)
Lemma first_pending_prefix (q : UploadQueue) l1 f l2 g l3 :
  NoDup (id <$> files q) ->
  files q = l1 ++ f :: l2 ++ g :: l3 ->
  is_pending f = true -> is_pending g = true ->
  id g ∈ first_pending q -> id f ∈ first_pending q.
Proof.
  intros Hnd Hfs Hf Hg Hin. unfold first_pending in *.
  set (M := id <$> List.filter is_pending (files q)) in *.
  assert (HM : M = (id <$> List.filter is_pending l1) ++ id f
                     :: (id <$> List.filter is_pending l2) ++ id g
                     :: (id <$> List.filter is_pending l3)).
  { unfold M. rewrite Hfs, List.filter_app. simpl. rewrite Hf.
    rewrite List.filter_app. simpl. rewrite Hg.
    rewrite fmap_app. simpl. rewrite fmap_app. reflexivity. }
  assert (HndM : NoDup M).
  { unfold M. apply (sublist_NoDup _ (id <$> files q)); [exact Hnd|].
    apply fmap_sublist. clear. induction (files q) as [|x l IH]; simpl.
    - constructor.
    - destruct (is_pending x);
        [apply sublist_skip | apply sublist_cons]; exact IH. }
  apply elem_of_take in Hin as (j & Hj & Hlt).
  set (a := length (id <$> List.filter is_pending l1)) in *.
  set (b := length (id <$> List.filter is_pending l2)) in *.
  assert (Hpos : M !! (a + S b)%nat = Some (id g)).
  { rewrite HM. rewrite lookup_app_r by (unfold a; lia).
    replace (a + S b - length (id <$> List.filter is_pending l1))%nat with (S b)
      by (unfold a; lia).
    simpl. rewrite lookup_app_r by (unfold b; lia).
    replace (b - length (id <$> List.filter is_pending l2))%nat with O
      by (unfold b; lia).
    reflexivity. }
  pose proof (NoDup_lookup M _ _ _ HndM Hj Hpos) as ->.
  apply elem_of_take. exists a. split; [|lia].
  rewrite HM. apply list_lookup_middle. reflexivity.
Qed.

Lemma updateFileStatus_has_file i st e s :
  Forall (fun f => has_file f = true) (files (queue s)) ->
  Forall (fun f => has_file f = true)
         (files (queue (updateFileStatus i st e s))).
Proof.
  intros H. unfold updateFileStatus.
  destruct (Js.findIndex _ _) as [n|]; [|exact H].
  destruct (_ !! n) as [old|] eqn:Hn; [|exact H].
  simpl. apply Forall_insert; [exact H|].
  exact (proj1 (Forall_lookup _ _) H n old Hn).
Qed.

Lemma pending_after_mark started fs :
  List.filter is_pending (mark_uploading started fs)
  = List.filter
      (fun f => is_pending f && negb (bool_decide (id f ∈ started))) fs.
Proof.
  unfold mark_uploading. induction fs as [|f fs IH]; [reflexivity|].
  rewrite fmap_cons. cbn [List.filter]. rewrite IH.
  case_bool_decide; simpl.
  - rewrite andb_false_r. reflexivity.
  - rewrite andb_true_r. reflexivity.
Qed.

Lemma filter_none {A} (p : A -> bool) (l : list A) :
  (forall x, In x l -> p x = false) -> List.filter p l = [].
Proof.
  induction l as [|x l IH]; intros H; simpl; [reflexivity|].
  rewrite (H x) by (left; reflexivity).
  apply IH. intros y Hy. apply H. right. exact Hy.
Qed.

(** After a run of the scheduler nothing is left to start: no slot is free
    or no upload is pending. *)
Lemma processUploadQueue_saturates s :
  NoDup (ids s) -> Forall (fun f => has_file f = true) (files (queue s)) ->
  first_pending (queue (processUploadQueue s)) = [].
Proof.
  intros Hnd Hfiles.
  destruct (processUploadQueue_spec s Hnd Hfiles) as (F & A & M & _).
  unfold first_pending at 1, slots. rewrite F, A, M, pending_after_mark.
  set (started := first_pending (queue s)).
  destruct (decide (length (id <$> List.filter is_pending (files (queue s)))
                    <= slots (queue s))%nat) as [Hle|Hgt].
  - assert (Hall : started = id <$> List.filter is_pending (files (queue s))).
    { unfold started, first_pending. apply take_ge. exact Hle. }
    rewrite filter_none; [apply take_nil|].
    intros f Hin. apply andb_false_iff.
    destruct (is_pending f) eqn:Hp; [right | left; reflexivity].
    apply negb_false_iff, bool_decide_eq_true_2. rewrite Hall.
    apply list_elem_of_fmap. exists f. split; [reflexivity|].
    apply list_elem_of_In, List.filter_In. split; [exact Hin | exact Hp].
  - assert (Hlen : length started = slots (queue s)).
    { unfold started, first_pending. rewrite length_take. lia. }
    rewrite Hlen. unfold slots.
    replace (Z.to_nat _) with O by lia. reflexivity.
Qed.

Lemma processUploadQueue_has_file s :
  NoDup (ids s) -> Forall (fun f => has_file f = true) (files (queue s)) ->
  Forall (fun f => has_file f = true) (files (queue (processUploadQueue s))).
Proof.
  intros Hnd Hfiles.
  destruct (processUploadQueue_spec s Hnd Hfiles) as (-> & _).
  unfold mark_uploading. apply Forall_fmap.
  eapply Forall_impl; [exact Hfiles|].
  intros f Hf. simpl. case_bool_decide; exact Hf.
Qed.

(** *** What the scheduler leaves alone *)

Lemma startSingleUpload_ids f s : ids (startSingleUpload f s) = ids s.
Proof.
  unfold startSingleUpload. destruct (file f).
  - exact (updateFileStatus_ids (id f) Uploading None s).
  - apply updateFileStatus_ids.
Qed.

Lemma fold_start_ids L : forall s,
  ids (fold_left (fun s f => startSingleUpload f s) L s) = ids s.
Proof.
  induction L as [|f L IH]; intros s; simpl; [reflexivity|].
  rewrite IH. apply startSingleUpload_ids.
Qed.

Lemma processUploadQueue_ids s : ids (processUploadQueue s) = ids s.
Proof.
  unfold processUploadQueue. destruct (_ && _); [|reflexivity].
  apply fold_start_ids.
Qed.

Lemma startSingleUpload_requests f s :
  requests (startSingleUpload f s)
  = requests s ++ (if has_file f then [id f] else []).
Proof.
  unfold startSingleUpload, has_file. destruct (file f); simpl.
  - destruct (updateFileStatus_counters (id f) Uploading None s) as (_ & _ & ->).
    reflexivity.
  - destruct (updateFileStatus_counters (id f) Failed
                (Some "File object is missing"%string) s) as (_ & _ & ->).
    symmetry. apply app_nil_r.
Qed.

Lemma fold_start_requests L : forall s,
  requests (fold_left (fun s f => startSingleUpload f s) L s)
  = requests s ++ (id <$> List.filter has_file L).
Proof.
  induction L as [|f L IH]; intros s; simpl.
  - symmetry. apply app_nil_r.
  - rewrite IH, startSingleUpload_requests, <- app_assoc.
    destruct (has_file f); reflexivity.
Qed.

(** The requests one run of the scheduler sends: the first [slots]
    pending uploads in queue order, those without a file object skipped. *)
Lemma processUploadQueue_requests s :
  requests (processUploadQueue s)
  = requests s
    ++ (id <$> List.filter has_file
                 (take (slots (queue s))
                       (List.filter is_pending (files (queue s))))).
Proof.
  unfold processUploadQueue. destruct (_ && _) eqn:Hc.
  - apply fold_start_requests.
  - apply andb_false_iff in Hc as [H|H].
    + rewrite Z.gtb_ltb in H. apply Z.ltb_ge in H.
      unfold slots. replace (Z.to_nat _) with O by lia.
      symmetry. apply app_nil_r.
    + apply Nat.ltb_ge in H.
      destruct (List.filter is_pending _); [|simpl in H; lia].
      rewrite take_nil. symmetry. apply app_nil_r.
Qed.

(** *** The queue value after a handler depends on the queue value only *)

Lemma updateFileStatus_queue i st e s t :
  queue s = queue t ->
  queue (updateFileStatus i st e s) = queue (updateFileStatus i st e t).
Proof.
  intros H. unfold updateFileStatus. rewrite H.
  destruct (Js.findIndex _ _); [|exact H].
  destruct (_ !! _); [reflexivity | exact H].
Qed.

Lemma decrementActiveUploads_queue s t :
  queue s = queue t ->
  queue (decrementActiveUploads s) = queue (decrementActiveUploads t).
Proof. intros H. unfold decrementActiveUploads. rewrite H. reflexivity. Qed.

Lemma startSingleUpload_queue f s t :
  queue s = queue t ->
  queue (startSingleUpload f s) = queue (startSingleUpload f t).
Proof.
  intros H. unfold startSingleUpload. destruct (file f).
  - simpl. rewrite (updateFileStatus_queue (id f) Uploading None s t H).
    reflexivity.
  - apply updateFileStatus_queue, H.
Qed.

Lemma processUploadQueue_queue s t :
  queue s = queue t ->
  queue (processUploadQueue s) = queue (processUploadQueue t).
Proof.
  intros H. unfold processUploadQueue. rewrite H.
  destruct (_ && _); [|exact H].
  generalize (take (Z.to_nat (maxConcurrent (queue t) - activeUploads (queue t)))
                   (List.filter is_pending (files (queue t)))).
  intros L. revert s t H.
  induction L as [|f L IH]; intros s t H; simpl; [exact H|].
  apply IH, startSingleUpload_queue, H.
Qed.

(** *** Admission *)

Lemma sift_app gen pre post n :
  sift gen (pre ++ post) n
  = let '(ok1, e1, n1) := sift gen pre n in
    let '(ok2, e2, n2) := sift gen post n1 in
    (ok1 ++ ok2, e1 ++ e2, n2).
Proof.
  revert n. induction pre as [|f pre IH]; intros n; simpl.
  - destruct (sift gen post n) as [[ok2 e2] n2]. reflexivity.
  - destruct (isValid (validateFile f)).
    + rewrite IH. destruct (sift gen pre (S n)) as [[ok1 e1] n1].
      destruct (sift gen post n1) as [[ok2 e2] n2]. reflexivity.
    + rewrite IH. destruct (sift gen pre n) as [[ok1 e1] n1].
      destruct (sift gen post n1) as [[ok2 e2] n2]. reflexivity.
Qed.

Lemma sift_pending gen fs : forall n,
  Forall (fun u => status u = Pending) (sift gen fs n).1.1.
Proof.
  induction fs as [|f fs IH]; intros n; simpl; [constructor|].
  destruct (isValid (validateFile f)).
  - specialize (IH (S n)). destruct (sift gen fs (S n)) as [[ok e] n'].
    simpl in *. constructor; [reflexivity | exact IH].
  - specialize (IH n). destruct (sift gen fs n) as [[ok e] n'].
    exact IH.
Qed.

Lemma validateFile_oversized f :
  fsize f > MAX_FILE_SIZE ->
  validateFile f = mkValidation false (Some (SizeExceeds (fsize f))).
Proof.
  intros H. unfold validateFile.
  rewrite (proj2 (Z.gtb_gt _ _)) by lia. reflexivity.
Qed.

(** *** The bound on every path but [startUploadById] *)

Lemma updateFileStatus_within_limit i st e s :
  within_limit s -> within_limit (updateFileStatus i st e s).
Proof.
  unfold within_limit.
  destruct (updateFileStatus_counters i st e s) as (-> & -> & _). auto.
Qed.

Lemma fold_start_counters L : forall s,
  activeUploads (queue (fold_left (fun s f => startSingleUpload f s) L s))
  = activeUploads (queue s) + Z.of_nat (length (List.filter has_file L))
  /\ maxConcurrent (queue (fold_left (fun s f => startSingleUpload f s) L s))
     = maxConcurrent (queue s).
Proof.
  induction L as [|f L IH]; intros s; simpl; [split; lia|].
  destruct (IH (startSingleUpload f s)) as (-> & ->).
  unfold startSingleUpload, has_file. destruct (file f); simpl.
  - destruct (updateFileStatus_counters (id f) Uploading None s) as (-> & -> & _).
    split; lia.
  - destruct (updateFileStatus_counters (id f) Failed
                (Some "File object is missing"%string) s) as (-> & -> & _).
    split; lia.
Qed.

Lemma filter_length_le {A} (p : A -> bool) (l : list A) :
  (length (List.filter p l) <= length l)%nat.
Proof.
  induction l as [|x l IH]; simpl; [lia|]. destruct (p x); simpl; lia.
Qed.

Lemma processUploadQueue_within_limit s :
  within_limit s -> within_limit (processUploadQueue s).
Proof.
  intros [Hm Ha]. unfold processUploadQueue.
  destruct (_ && _) eqn:Hc; [|split; assumption].
  apply andb_true_iff in Hc as [Hs _]. apply Z.gtb_gt in Hs.
  match goal with |- within_limit (fold_left _ ?L s) =>
    destruct (fold_start_counters L s) as (Ha' & Hm');
    pose proof (filter_length_le has_file L) as Hle;
    assert (Hlen : (length L <= Z.to_nat (maxConcurrent (queue s)
                                          - activeUploads (queue s)))%nat)
      by (rewrite length_take; lia)
  end.
  unfold within_limit. rewrite Ha', Hm'. split; [exact Hm | lia].
Qed.

Lemma decrementActiveUploads_within_limit s :
  within_limit s -> within_limit (decrementActiveUploads s).
Proof.
  unfold within_limit, MAX_CONCURRENT_UPLOADS. simpl. intros [-> H]. lia.
Qed.

Lemma handle_within_limit gen s ev :
  no_start_by_id ev = true -> within_limit s -> within_limit (handle gen s ev).
Proof.
  intros Hev H. destruct ev; simpl; try discriminate.
  - unfold addFilesToQueue.
    destruct (sift gen fs (idCalls s)) as [[ok errs] n]. exact H.
  - apply processUploadQueue_within_limit, H.
  - exact H.
  - split; [reflexivity | unfold MAX_CONCURRENT_UPLOADS; simpl; lia].
  - unfold retryUpload.
    destruct (Js.findIndex _ _); [|exact H].
    destruct (_ !! _) as [f|]; [|exact H].
    destruct (status_eqb _ _); [|exact H].
    apply processUploadQueue_within_limit. exact H.
  - exact H.
  - unfold onProgress. destruct total as [t|]; [|exact H].
    destruct (t =? 0); [exact H|].
    unfold updateFileProgress.
    destruct (Js.findIndex _ _); [|exact H].
    destruct (_ !! _); exact H.
  - unfold onResponse.
    apply processUploadQueue_within_limit, decrementActiveUploads_within_limit.
    destruct (_ >? _).
    + exact (updateFileStatus_within_limit fileId Success None s H).
    + apply updateFileStatus_within_limit, H.
  - unfold onError, handleUploadError.
    repeat first [ apply processUploadQueue_within_limit
                 | apply decrementActiveUploads_within_limit
                 | apply updateFileStatus_within_limit ].
    exact H.
Qed.

(** On every path but [startUploadById] the counter respects the limit. *)
Lemma within_limit_without_startUploadById gen evs :
  forallb no_start_by_id evs = true ->
  activeUploads (queue (run gen evs init)) <= MAX_CONCURRENT_UPLOADS.
Proof.
  assert (H0 : within_limit init) by (split; [reflexivity | discriminate]).
  revert H0. generalize init. induction evs as [|ev evs IH]; intros s H Hall.
  - apply H.
  - simpl in *. apply andb_true_iff in Hall as [Hev Hall].
    apply IH; [apply handle_within_limit; assumption | exact Hall].
Qed.

(** *** States the service can reach *)

Lemma well_formed_same_ids gen s s' :
  ids s' = ids s -> idCalls s' = idCalls s ->
  Forall (fun f => has_file f = true) (files (queue s')) ->
  well_formed gen s -> well_formed gen s'.
Proof.
  intros Hi Hc Hf (Hnd & Hk & _). unfold well_formed.
  rewrite Hi, Hc. auto.
Qed.

Lemma well_formed_filter gen p s s' :
  files (queue s') = List.filter p (files (queue s)) ->
  idCalls s' = idCalls s ->
  well_formed gen s -> well_formed gen s'.
Proof.
  intros Hf Hc (Hnd & Hk & Hfile).
  assert (Hsub : files (queue s') `sublist_of` files (queue s)).
  { rewrite Hf. clear. induction (files (queue s)) as [|x l IH]; simpl.
    - constructor.
    - destruct (p x); [apply sublist_skip | apply sublist_cons]; exact IH. }
  unfold well_formed, ids. rewrite Hc. split; [|split].
  - eapply sublist_NoDup; [exact Hnd | apply fmap_sublist, Hsub].
  - apply Forall_forall. intros i Hi.
    apply (proj1 (Forall_forall _ _) Hk).
    eapply elem_of_sublist; [exact Hi | apply fmap_sublist, Hsub].
  - apply Forall_forall. intros f Hin.
    apply (proj1 (Forall_forall _ _) Hfile).
    eapply elem_of_sublist; [exact Hin | exact Hsub].
Qed.

Lemma updateFileProgress_shape i p s :
  ids (updateFileProgress i p s) = ids s
  /\ idCalls (updateFileProgress i p s) = idCalls s
  /\ (Forall (fun f => has_file f = true) (files (queue s)) ->
      Forall (fun f => has_file f = true)
             (files (queue (updateFileProgress i p s)))).
Proof.
  unfold updateFileProgress, ids.
  destruct (Js.findIndex _ _) as [n|]; [|auto].
  destruct (_ !! n) as [old|] eqn:Hn; [|auto].
  simpl. split; [|split; [reflexivity|]].
  - apply (insert_keeps_ids _ _ old); [exact Hn | reflexivity].
  - intros H. apply Forall_insert; [exact H|].
    exact (proj1 (Forall_lookup _ _) H n old Hn).
Qed.

Lemma updateFileStatus_idCalls i st e s :
  idCalls (updateFileStatus i st e s) = idCalls s.
Proof.
  unfold updateFileStatus.
  destruct (Js.findIndex _ _); [|reflexivity].
  destruct (_ !! _); reflexivity.
Qed.

Lemma updateFileStatus_well_formed gen i st e s :
  well_formed gen s -> well_formed gen (updateFileStatus i st e s).
Proof.
  intros H. apply (well_formed_same_ids gen s); [| | |exact H].
  - apply updateFileStatus_ids.
  - apply updateFileStatus_idCalls.
  - apply updateFileStatus_has_file, H.
Qed.

Lemma decrementActiveUploads_well_formed gen s :
  well_formed gen s -> well_formed gen (decrementActiveUploads s).
Proof. intros H. exact H. Qed.

Lemma startSingleUpload_well_formed gen f s :
  well_formed gen s -> well_formed gen (startSingleUpload f s).
Proof.
  intros H. unfold startSingleUpload. destruct (file f).
  - exact (updateFileStatus_well_formed gen (id f) Uploading None s H).
  - apply updateFileStatus_well_formed, H.
Qed.

Lemma processUploadQueue_well_formed gen s :
  well_formed gen s -> well_formed gen (processUploadQueue s).
Proof.
  intros H. unfold processUploadQueue. destruct (_ && _); [|exact H].
  generalize (take (Z.to_nat (maxConcurrent (queue s) - activeUploads (queue s)))
                   (List.filter is_pending (files (queue s)))).
  intros L. revert s H.
  induction L as [|f L IH]; intros s H; simpl; [exact H|].
  apply IH, startSingleUpload_well_formed, H.
Qed.

Lemma cancelLoop_idCalls n : forall i s, idCalls (cancelLoop n i s) = idCalls s.
Proof.
  induction n as [|n IH]; intros i s; simpl; [reflexivity|].
  rewrite IH. destruct (_ !! _) as [f|]; [|reflexivity].
  destruct (is_active f); [apply updateFileStatus_idCalls | reflexivity].
Qed.

(** What admission makes of a batch: the accepted uploads carry the ids
    drawn from [n] on, each once, and hold their file. *)
Lemma sift_spec gen fs : forall n,
  let '(ok, errs, n') := sift gen fs n in
  (n <= n')%nat
  /\ Forall (fun u => exists k, (n <= k < n')%nat /\ id u = gen k) ok
  /\ (Inj (=) (=) gen -> NoDup (id <$> ok))
  /\ Forall (fun u => has_file u = true) ok.
Proof.
  induction fs as [|f fs IH]; intros n; simpl.
  - repeat split; [lia | constructor | constructor | constructor].
  - destruct (isValid (validateFile f)).
    + specialize (IH (S n)). destruct (sift gen fs (S n)) as [[ok errs] n'].
      destruct IH as (Hle & Hk & Hnd & Hf).
      split; [lia|]. split; [|split].
      * constructor; [exists n; split; [lia | reflexivity]|].
        eapply Forall_impl; [exact Hk|].
        intros u (k & Hk' & ->). exists k. split; [lia | reflexivity].
      * intros Hinj. rewrite fmap_cons. apply NoDup_cons. split; [|auto].
        simpl. intros Hin. apply list_elem_of_fmap in Hin as (u & Hu & Hin).
        destruct (proj1 (Forall_forall _ _) Hk u Hin) as (k & Hk' & Hid).
        rewrite Hid in Hu. apply Hinj in Hu. lia.
      * constructor; [reflexivity | exact Hf].
    + specialize (IH n). destruct (sift gen fs n) as [[ok errs] n'].
      exact IH.
Qed.

Lemma addFilesToQueue_well_formed gen fs s :
  Inj (=) (=) gen ->
  well_formed gen s -> well_formed gen (fst (addFilesToQueue gen fs s)).
Proof.
  intros Hinj (Hnd & Hk & Hf). unfold addFilesToQueue.
  pose proof (sift_spec gen fs (idCalls s)) as Hs.
  destruct (sift gen fs (idCalls s)) as [[ok errs] n'].
  destruct Hs as (Hle & Hok & Hnd' & Hf').
  unfold well_formed, ids. simpl. rewrite fmap_app.
  split; [|split].
  - apply NoDup_app. split; [exact Hnd|]. split; [|auto].
    intros i Hi Hin.
    destruct (proj1 (Forall_forall _ _) Hk i Hi) as (k & Hlt & ->).
    apply list_elem_of_fmap in Hin as (u & Hu & Hin).
    destruct (proj1 (Forall_forall _ _) Hok u Hin) as (k' & Hk' & Hid).
    rewrite Hid in Hu. apply Hinj in Hu. lia.
  - apply Forall_app. split.
    + eapply Forall_impl; [exact Hk|].
      intros i (k & Hlt & ->). exists k. split; [lia | reflexivity].
    + apply Forall_fmap. eapply Forall_impl; [exact Hok|].
      intros u (k & Hk' & Hid). exists k. split; [lia | exact Hid].
  - apply Forall_app. split; assumption.
Qed.

Lemma handle_well_formed gen s ev :
  Inj (=) (=) gen -> well_formed gen s -> well_formed gen (handle gen s ev).
Proof.
  intros Hinj H. destruct ev; simpl.
  - apply addFilesToQueue_well_formed; assumption.
  - apply processUploadQueue_well_formed, H.
  - unfold startUploadById. destruct (Js.find _ _); [|exact H].
    apply startSingleUpload_well_formed, H.
  - eapply well_formed_filter; [reflexivity | reflexivity | exact H].
  - destruct H as (_ & _ & _). repeat split; constructor.
  - unfold retryUpload.
    destruct (Js.findIndex _ _) as [n|]; [|exact H].
    destruct (_ !! n) as [f|] eqn:Hn; [|exact H].
    destruct (status_eqb _ _); [|exact H].
    apply processUploadQueue_well_formed.
    apply (well_formed_same_ids gen s); [| reflexivity | | exact H].
    + apply (insert_keeps_ids _ _ f); [exact Hn | reflexivity].
    + simpl. destruct H as (_ & _ & Hf).
      apply Forall_insert; [exact Hf|].
      exact (proj1 (Forall_lookup _ _) Hf n f Hn).
  - eapply well_formed_filter; [reflexivity | reflexivity | exact H].
  - unfold onProgress. destruct total as [t|]; [|exact H].
    destruct (t =? 0); [exact H|].
    destruct (updateFileProgress_shape fileId ((200 * loaded + t) / (2 * t)) s)
      as (Hi & Hc & Hf).
    apply (well_formed_same_ids gen s); [exact Hi | exact Hc | | exact H].
    apply Hf, H.
  - unfold onResponse.
    apply processUploadQueue_well_formed, decrementActiveUploads_well_formed.
    destruct (_ >? _).
    + exact (updateFileStatus_well_formed gen fileId Success None s H).
    + apply updateFileStatus_well_formed, H.
  - unfold onError, handleUploadError.
    apply processUploadQueue_well_formed, decrementActiveUploads_well_formed.
    apply updateFileStatus_well_formed.
    apply processUploadQueue_well_formed, decrementActiveUploads_well_formed.
    apply updateFileStatus_well_formed, H.
Qed.

(** With an id generator that never repeats, every state the service
    reaches has distinct ids and uploads that hold their file. *)
Lemma reachable_well_formed gen evs :
  Inj (=) (=) gen -> well_formed gen (run gen evs init).
Proof.
  intros Hinj.
  assert (H0 : well_formed gen init) by (repeat split; constructor).
  revert H0. generalize init.
  induction evs as [|ev evs IH]; intros s H; simpl; [exact H|].
  apply IH, handle_well_formed; assumption.
Qed.

(** *** The claims about the queue *)

(** C3 (the code departs from the claim). Four files are accepted and
    each is started through [startUploadById]: the counter reaches 4 while
    [maxConcurrent] is 3, and four requests are in flight. *)
Theorem startUploadById_exceeds_maxConcurrent :
  let s := run Demo.gid
             [AddFiles Demo.four; StartById "a"; StartById "b";
              StartById "c"; StartById "d"]%string init in
  activeUploads (queue s) = 4
  /\ maxConcurrent (queue s) = 3
  /\ status <$> files (queue s) = [Uploading; Uploading; Uploading; Uploading]
  /\ requests s = ["a"; "b"; "c"; "d"]%string.
Proof. vm_compute. repeat split; reflexivity. Qed.

(** C4, as stated, fails: a 101 MB [big.exe] breaks both rules, and the
    report shown for it holds no type reason. *)
Lemma both_violations_one_reason :
  fsize Demo.bigExe > MAX_FILE_SIZE
  /\ Js.includes ALLOWED_FILE_TYPES
                 (default ""%string (fileExtension Demo.bigExe)) = false
  /\ ~ exists report ext,
         report ∈ alerts (fst (addFilesToQueue Demo.gid [Demo.bigExe] init))
         /\ (name Demo.bigExe, Some (TypeNotAllowed ext)) ∈ report.
Proof.
  split; [reflexivity|]. split; [reflexivity|].
  intros (report & ext & Hr & Hin). vm_compute in Hr.
  apply list_elem_of_singleton in Hr. subst report.
  apply list_elem_of_singleton in Hin. discriminate Hin.
Qed.

(** C4 (amended). A candidate above the size limit whose extension is
    also not allowed is rejected by the size rule, which is checked first
    and ends the validation: within any batch it adds exactly one line to
    the report, carrying the size reason, and no upload to the queue. *)
Theorem oversized_file_rejected_once
    (gen : nat -> string) (pre post : list File) (f : File) (s : State) :
  fsize f > MAX_FILE_SIZE ->
  Js.includes ALLOWED_FILE_TYPES (default ""%string (fileExtension f)) = false ->
  let '(okPre, errPre, n1) := sift gen pre (idCalls s) in
  let '(okPost, errPost, n2) := sift gen post n1 in
  let '(s', accepted) := addFilesToQueue gen (pre ++ f :: post) s in
  validateFile f = mkValidation false (Some (SizeExceeds (fsize f)))
  /\ accepted = okPre ++ okPost
  /\ files (queue s') = files (queue s) ++ okPre ++ okPost
  /\ alerts s'
     = (errPre ++ (name f, Some (SizeExceeds (fsize f))) :: errPost)
         :: alerts s.
Proof.
  intros Hsize _.
  pose proof (validateFile_oversized f Hsize) as Hv.
  unfold addFilesToQueue. rewrite sift_app.
  destruct (sift gen pre (idCalls s)) as [[okPre errPre] n1].
  cbn [sift]. rewrite Hv. cbn [isValid verror].
  destruct (sift gen post n1) as [[okPost errPost] n2].
  cbn. rewrite length_app. cbn [length].
  rewrite Nat.add_succ_r. repeat split.
Qed.

Lemma oversized_file_rejected_once_witness :
  alerts (fst (addFilesToQueue Demo.gid
                 ([Demo.pdf "A.pdf"] ++ Demo.bigExe :: [Demo.pdf "B.pdf"]) init))
  = [[("big.exe"%string, Some (SizeExceeds (101 * 1024 * 1024)))]].
Proof.
  pose proof (oversized_file_rejected_once Demo.gid [Demo.pdf "A.pdf"%string]
                [Demo.pdf "B.pdf"%string] Demo.bigExe init
                ltac:(reflexivity) ltac:(reflexivity)) as H.
  cbn in H. destruct H as (_ & _ & _ & H). exact H.
Defined.


Lemma decrementActiveUploads_ids s : ids (decrementActiveUploads s) = ids s.
Proof. reflexivity. Qed.




(** C7, as stated, fails: a valid file is accepted while all three slots
    are free, and it stays pending with no request sent. *)
Lemma admission_leaves_file_pending :
  let s := run Demo.gid [AddFiles [Demo.pdf "A.pdf"]] init in
  status <$> files (queue s) = [Pending]
  /\ requests s = []
  /\ activeUploads (queue s) = 0
  /\ maxConcurrent (queue s) = 3.
Proof. vm_compute. repeat split; reflexivity. Qed.

Lemma addFilesToQueue_frame gen fs s :
  let s' := fst (addFilesToQueue gen fs s) in
  let accepted := snd (addFilesToQueue gen fs s) in
  files (queue s') = files (queue s) ++ accepted
  /\ Forall (fun u => status u = Pending) accepted
  /\ activeUploads (queue s') = activeUploads (queue s)
  /\ maxConcurrent (queue s') = maxConcurrent (queue s)
  /\ requests s' = requests s.
Proof.
  unfold addFilesToQueue.
  pose proof (sift_pending gen fs (idCalls s)) as Hp.
  destruct (sift gen fs (idCalls s)) as [[ok errs] n].
  simpl in *. repeat split. exact Hp.
Qed.

Lemma onResponse_saturates i r s :
  NoDup (ids s) -> Forall (fun f => has_file f = true) (files (queue s)) ->
  first_pending (queue (onResponse i r s)) = [].
Proof.
  intros Hnd Hfiles. unfold onResponse.
  apply processUploadQueue_saturates.
  - rewrite decrementActiveUploads_ids.
    destruct (_ >? _); [|rewrite updateFileStatus_ids; exact Hnd].
    change (NoDup (ids (updateFileStatus i Success None s))).
    rewrite updateFileStatus_ids. exact Hnd.
  - destruct (_ >? _); apply updateFileStatus_has_file, Hfiles.
Qed.

Lemma onError_saturates i e s :
  NoDup (ids s) -> Forall (fun f => has_file f = true) (files (queue s)) ->
  first_pending (queue (onError i e s)) = [].
Proof.
  intros Hnd Hfiles. unfold onError, handleUploadError.
  set (s1 := decrementActiveUploads
               (updateFileStatus i Failed (Some (getErrorMessage e)) s)).
  assert (Hnd1 : NoDup (ids s1)).
  { unfold s1. rewrite decrementActiveUploads_ids, updateFileStatus_ids.
    exact Hnd. }
  assert (Hf1 : Forall (fun f => has_file f = true) (files (queue s1))).
  { apply updateFileStatus_has_file, Hfiles. }
  apply processUploadQueue_saturates.
  - rewrite decrementActiveUploads_ids, updateFileStatus_ids,
      processUploadQueue_ids. exact Hnd1.
  - apply updateFileStatus_has_file, processUploadQueue_has_file; assumption.
Qed.

(** C7 (amended). Admission does not run the scheduler: the accepted
    files are appended as pending, and neither [activeUploads] nor the
    requests sent change, however many slots are free.  The scheduler runs
    when [startAllUploads] is called, which sends the requests of the first
    pending uploads that fit the free slots, and at the end of every
    completion handler; after each of these no pending upload is left
    waiting beside a free slot. *)
Theorem admission_does_not_schedule
    (gen : nat -> string) (fs : list File) (s : State) :
  let s' := fst (addFilesToQueue gen fs s) in
  let accepted := snd (addFilesToQueue gen fs s) in
  NoDup (ids s') ->
  Forall (fun f => has_file f = true) (files (queue s')) ->
  files (queue s') = files (queue s) ++ accepted
  /\ Forall (fun u => status u = Pending) accepted
  /\ activeUploads (queue s') = activeUploads (queue s)
  /\ requests s' = requests s
  /\ requests (startAllUploads s') = requests s' ++ first_pending (queue s')
  /\ first_pending (queue (startAllUploads s')) = []
  /\ (forall i r, first_pending (queue (onResponse i r s')) = [])
  /\ (forall i e, first_pending (queue (onError i e s')) = []).
Proof.
  intros s' accepted Hnd Hfiles.
  destruct (addFilesToQueue_frame gen fs s) as (Hf & Hp & Ha & _ & Hr).
  split; [exact Hf|]. split; [exact Hp|]. split; [exact Ha|].
  split; [exact Hr|].
  split; [apply (processUploadQueue_spec s' Hnd Hfiles)|].
  split; [apply processUploadQueue_saturates; assumption|].
  split; intros i x;
    [apply onResponse_saturates | apply onError_saturates]; assumption.
Qed.

Lemma admission_does_not_schedule_witness :
  let s' := fst (addFilesToQueue Demo.gid Demo.four init) in
  first_pending (queue s') = ["a"; "b"; "c"]%string
  /\ requests s' = []
  /\ requests (startAllUploads s') = ["a"; "b"; "c"]%string
  /\ first_pending (queue (onResponse "a" Demo.ok1 s')) = [].
Proof.
  intros s'.
  assert (Hnd : NoDup (ids s')).
  { apply (bool_decide_unpack _). vm_compute. exact I. }
  assert (Hfiles : Forall (fun f => has_file f = true) (files (queue s'))).
  { repeat constructor. }
  destruct (admission_does_not_schedule Demo.gid Demo.four init Hnd Hfiles)
    as (_ & _ & _ & R & S & _ & Hresp & _).
  split; [reflexivity|]. split; [exact R|].
  split; [etransitivity; [exact S | reflexivity]|].
  apply Hresp.
Defined.

(** C9. With distinct ids and every upload holding its file, one run of
    the scheduler starts exactly the first [slots] pending uploads in queue
    order: their requests are sent in that order, they and only they move
    to uploading, and the counter grows by their number.  So a pending
    upload is never started while one queued before it stays pending. *)
Theorem processUploadQueue_fifo (s : State) :
  NoDup (ids s) ->
  Forall (fun f => has_file f = true) (files (queue s)) ->
  let s' := processUploadQueue s in
  let started := first_pending (queue s) in
  requests s' = requests s ++ started
  /\ files (queue s') = mark_uploading started (files (queue s))
  /\ activeUploads (queue s')
     = activeUploads (queue s) + Z.of_nat (length started)
  /\ (forall l1 f l2 g l3,
        files (queue s) = l1 ++ f :: l2 ++ g :: l3 ->
        is_pending f = true -> is_pending g = true ->
        id g ∈ started -> id f ∈ started).
Proof.
  intros Hnd Hfiles s' started.
  destruct (processUploadQueue_spec s Hnd Hfiles) as (F & A & _ & R).
  split; [exact R|]. split; [exact F|]. split; [exact A|].
  intros l1 f l2 g l3 Hsplit Hf Hg Hin.
  exact (first_pending_prefix (queue s) l1 f l2 g l3 Hnd Hsplit Hf Hg Hin).
Qed.

Lemma processUploadQueue_fifo_witness :
  let s := fst (addFilesToQueue Demo.gid Demo.four init) in
  requests (processUploadQueue s) = ["a"; "b"; "c"]%string
  /\ status <$> files (queue (processUploadQueue s))
     = [Uploading; Uploading; Uploading; Pending].
Proof.
  intros s.
  assert (Hnd : NoDup (ids s)).
  { apply (bool_decide_unpack _). vm_compute. exact I. }
  assert (Hfiles : Forall (fun f => has_file f = true) (files (queue s))).
  { repeat constructor. }
  destruct (processUploadQueue_fifo s Hnd Hfiles) as (R & F & _ & _).
  split.
  - etransitivity; [exact R | reflexivity].
  - etransitivity; [exact (f_equal (fmap status) F) | reflexivity].
Defined.

(** The backfill scenario with a single slot: of A, B, C and D only A
    starts; when A's request is answered, B starts and C and D wait. *)
Example fifo_backfill_one_slot :
  let s1 := startAllUploads Demo.oneSlot in
  let s2 := onResponse "a" Demo.ok1 s1 in
  status <$> files (queue s1) = [Uploading; Pending; Pending; Pending]
  /\ status <$> files (queue s2) = [Success; Uploading; Pending; Pending]
  /\ requests s2 = ["a"; "b"]%string.
Proof. vm_compute. repeat split; reflexivity. Qed.

(** *** The counter never goes below zero *)

Lemma next_counter_ok q s : counter_ok s -> nonneg q -> counter_ok (next q s).
Proof. intros [_ Hp] Hq. split; [exact Hq | constructor; assumption]. Qed.

Lemma updateFileStatus_counter_ok i st e s :
  counter_ok s -> counter_ok (updateFileStatus i st e s).
Proof.
  intros H. unfold updateFileStatus.
  destruct (Js.findIndex _ _); [|exact H].
  destruct (_ !! _); [|exact H].
  apply next_counter_ok; [exact H | apply H].
Qed.

Lemma updateFileProgress_counter_ok i p s :
  counter_ok s -> counter_ok (updateFileProgress i p s).
Proof.
  intros H. unfold updateFileProgress.
  destruct (Js.findIndex _ _); [|exact H].
  destruct (_ !! _); [|exact H].
  apply next_counter_ok; [exact H | apply H].
Qed.

Lemma decrementActiveUploads_counter_ok s :
  counter_ok s -> counter_ok (decrementActiveUploads s).
Proof.
  intros H. apply next_counter_ok; [exact H|].
  unfold nonneg; simpl. lia.
Qed.

Lemma incrementActiveUploads_counter_ok s :
  counter_ok s -> counter_ok (incrementActiveUploads s).
Proof.
  intros H. apply next_counter_ok; [exact H|].
  destruct H as [H _]. unfold nonneg in *; simpl. lia.
Qed.

Lemma startSingleUpload_counter_ok f s :
  counter_ok s -> counter_ok (startSingleUpload f s).
Proof.
  intros H. unfold startSingleUpload. destruct (file f).
  - apply (incrementActiveUploads_counter_ok
             (updateFileStatus (id f) Uploading None s)).
    apply updateFileStatus_counter_ok, H.
  - apply updateFileStatus_counter_ok, H.
Qed.

Lemma processUploadQueue_counter_ok s :
  counter_ok s -> counter_ok (processUploadQueue s).
Proof.
  intros H. unfold processUploadQueue.
  destruct (_ && _); [|exact H].
  generalize (take (Z.to_nat (maxConcurrent (queue s) - activeUploads (queue s)))
                   (List.filter is_pending (files (queue s)))).
  intros l. revert s H.
  induction l as [|f l IH]; intros s H; simpl; [exact H|].
  apply IH, startSingleUpload_counter_ok, H.
Qed.

Lemma cancelLoop_counter_ok n : forall i s,
  counter_ok s -> counter_ok (cancelLoop n i s).
Proof.
  induction n as [|n IH]; intros i s H; simpl; [exact H|].
  apply IH. destruct (_ !! _) as [f|]; [|exact H].
  destruct (is_active f); [apply updateFileStatus_counter_ok, H | exact H].
Qed.

Lemma retryUpload_counter_ok i s :
  counter_ok s -> counter_ok (retryUpload i s).
Proof.
  intros H. unfold retryUpload.
  destruct (Js.findIndex _ _); [|exact H].
  destruct (_ !! _) as [f|]; [|exact H].
  destruct (status_eqb _ _); [|exact H].
  apply processUploadQueue_counter_ok. exact H.
Qed.

Lemma addFilesToQueue_counter_ok gen fs s :
  counter_ok s -> counter_ok (fst (addFilesToQueue gen fs s)).
Proof.
  intros H. unfold addFilesToQueue.
  destruct (sift gen fs (idCalls s)) as [[ok errs] n]. simpl.
  split; [apply H | constructor; apply H].
Qed.

Lemma onResponse_counter_ok i r s :
  counter_ok s -> counter_ok (onResponse i r s).
Proof.
  intros H. unfold onResponse.
  apply processUploadQueue_counter_ok, decrementActiveUploads_counter_ok.
  destruct (_ >? _).
  - exact (updateFileStatus_counter_ok i Success None s H).
  - apply updateFileStatus_counter_ok, H.
Qed.

Lemma onError_counter_ok i e s :
  counter_ok s -> counter_ok (onError i e s).
Proof.
  intros H. unfold onError, handleUploadError.
  repeat first [ apply processUploadQueue_counter_ok
               | apply decrementActiveUploads_counter_ok
               | apply updateFileStatus_counter_ok ].
  exact H.
Qed.

Lemma handle_counter_ok gen s ev :
  counter_ok s -> counter_ok (handle gen s ev).
Proof.
  intros H. destruct ev; simpl.
  - apply addFilesToQueue_counter_ok, H.
  - apply processUploadQueue_counter_ok, H.
  - unfold startUploadById. destruct (Js.find _ _); [|exact H].
    apply startSingleUpload_counter_ok, H.
  - apply next_counter_ok; [exact H | apply H].
  - apply next_counter_ok; [|unfold nonneg; simpl; lia].
    apply cancelLoop_counter_ok, H.
  - apply retryUpload_counter_ok, H.
  - apply next_counter_ok; [exact H | apply H].
  - unfold onProgress. destruct total as [t|]; [|exact H].
    destruct (t =? 0); [exact H | apply updateFileProgress_counter_ok, H].
  - apply onResponse_counter_ok, H.
  - apply onError_counter_ok, H.
Qed.

Lemma run_counter_ok gen evs : forall s,
  counter_ok s -> counter_ok (run gen evs s).
Proof.
  induction evs as [|ev evs IH]; intros s H; simpl; [exact H|].
  apply IH, handle_counter_ok, H.
Qed.

(** C10. Whatever calls and completions reach the service, in whatever
    order, every value of [activeUploads] that the queue subject has
    emitted, and its current value, is at least zero. *)
Theorem activeUploads_never_negative (gen : nat -> string) (evs : list Event) :
  Forall (fun q => 0 <= activeUploads q) (published (run gen evs init))
  /\ 0 <= activeUploads (queue (run gen evs init)).
Proof.
  assert (H0 : counter_ok init).
  { split; [|constructor; [|constructor]]; unfold nonneg; simpl; lia. }
  destruct (run_counter_ok gen evs init H0) as [Hq Hp].
  split; [exact Hp | exact Hq].
Qed.

End UploadFacts.

(** ** The token lifecycle manager *)

Module AuthFacts.

Import Auth.

(** [isAuthenticated] only reads: it is a function of the store and the
    clock, and this is when it answers [true]. *)
Lemma isAuthenticated_true_iff (P : Platform) (s : State) (now : Z) :
  isAuthenticated P s now = true
  <-> exists token payload exp,
        getAccessToken s = Some token
        /\ Js.truthy token = true
        /\ decodePayload P token = Some payload
        /\ get_prop payload "exp" = Some exp
        /\ match num_mul (ToNumber P exp) 1000 with
           | Fin t => now < t
           | NaN => True
           end.
Proof.
  unfold isAuthenticated, isTokenExpired, expiryTime. split.
  - destruct (getAccessToken s) as [token|]; [|discriminate].
    intros H. apply andb_true_iff in H as [Ht He].
    apply negb_true_iff in He.
    destruct (decodePayload P token) as [payload|] eqn:Hd; [|discriminate].
    destruct (get_prop payload "exp") as [exp|] eqn:Hp; [|discriminate].
    exists token, payload, exp.
    split; [reflexivity|]. split; [exact Ht|].
    split; [exact Hd|]. split; [exact Hp|].
    destruct (num_mul _ _); [|exact I].
    simpl in He. apply Z.leb_gt in He. exact He.
  - intros (token & payload & exp & -> & Ht & -> & -> & Hexp).
    rewrite Ht. simpl.
    destruct (num_mul _ _); [|reflexivity].
    simpl. apply negb_true_iff, Z.leb_gt. exact Hexp.
Qed.

(** A payload that decodes and has a numeric [exp]: authenticated exactly
    while the clock, in milliseconds, is before [exp] seconds. *)
Lemma isAuthenticated_numeric_exp (P : Platform) (s : State) (now : Z)
    token fields e :
  getAccessToken s = Some token -> Js.truthy token = true ->
  decodePayload P token = Some (JObj fields) ->
  assoc "exp" fields = Some (JNum e) ->
  isAuthenticated P s now = bool_decide (now < e * 1000).
Proof.
  intros Ht Htr Hd He.
  unfold isAuthenticated, isTokenExpired, expiryTime.
  rewrite Ht, Htr, Hd. simpl. rewrite He. simpl.
  case_bool_decide as Hlt.
  - apply negb_true_iff, Z.leb_gt. exact Hlt.
  - apply negb_false_iff, Z.leb_le. lia.
Qed.

(** An undecodable token is taken as expired. *)
Lemma isAuthenticated_undecodable (P : Platform) (s : State) (now : Z) token :
  getAccessToken s = Some token -> decodePayload P token = None ->
  isAuthenticated P s now = false.
Proof.
  intros Ht Hd. unfold isAuthenticated, isTokenExpired, expiryTime.
  rewrite Ht, Hd. apply andb_false_r.
Qed.

(** A payload without [exp] is never seen as expired: [undefined * 1000]
    is [NaN] and [Date.now() >= NaN] is false. *)
Lemma isAuthenticated_missing_exp (P : Platform) (s : State) (now : Z)
    token fields :
  getAccessToken s = Some token -> Js.truthy token = true ->
  decodePayload P token = Some (JObj fields) ->
  assoc "exp" fields = None ->
  isAuthenticated P s now = true.
Proof.
  intros Ht Htr Hd He.
  unfold isAuthenticated, isTokenExpired, expiryTime.
  rewrite Ht, Htr, Hd. simpl. rewrite He. reflexivity.
Qed.

(** The expiry boundary on the session whose token carries [exp] 1000:
    valid one second before, expired at the very second. *)
Example isAuthenticated_boundary :
  isAuthenticated Demo.platform Demo.session 999000 = true
  /\ isAuthenticated Demo.platform Demo.session 1000000 = false.
Proof. split; vm_compute; reflexivity. Qed.

(** C6 (the code departs from the claim). The stored access token is
    "h.e30.s", whose payload decodes to the empty object: at every clock
    value [isAuthenticated] answers [true]. *)
Theorem isAuthenticated_without_exp (now : Z) :
  isAuthenticated Demo.platform Demo.session_noexp now = true.
Proof.
  apply (isAuthenticated_missing_exp Demo.platform Demo.session_noexp now
           Demo.token_noexp []); reflexivity.
Qed.

(** C8, as stated, fails: with a session in the store, a login that is
    answered 401 clears it. *)
Lemma login_401_clears_session :
  getAccessToken Demo.session = Some Demo.token_exp1000
  /\ fst (login Demo.platform (inr (Js.Http Demo.unauthorized)) 5 Demo.session)
     <> Demo.session.
Proof.
  split; [vm_compute; reflexivity|]. intros H.
  apply (f_equal getAccessToken) in H. vm_compute in H. discriminate H.
Qed.

Lemma logout_clears (s : State) :
  getAccessToken (logout s) = None
  /\ getRefreshToken (logout s) = None
  /\ localStorage (logout s) !! USER_KEY = None
  /\ currentUser (logout s) = None
  /\ authenticated (logout s) = false.
Proof.
  unfold getAccessToken, getRefreshToken, logout, clearTokens. simpl.
  repeat split.
  - rewrite lookup_delete_ne by discriminate.
    rewrite lookup_delete_ne by discriminate.
    apply lookup_delete_eq.
  - rewrite lookup_delete_ne by discriminate. apply lookup_delete_eq.
  - apply lookup_delete_eq.
Qed.

(** C8 (amended). A failed login always hands the error to the caller as
    it came.  When its status is not 401 the whole session state, timer and
    effects included, is exactly what it was; when it is 401, [logout] runs:
    the stored tokens and user are removed and the published state is
    unauthenticated. *)
Theorem login_failure (P : Platform) (e : Js.Error) (now : Z) (s : State) :
  let s' := fst (login P (inr e) now s) in
  snd (login P (inr e) now s) = inr e
  /\ (Js.status_is 401 e = false -> s' = s)
  /\ (Js.status_is 401 e = true ->
      s' = logout s
      /\ getAccessToken s' = None /\ getRefreshToken s' = None
      /\ currentUser s' = None /\ authenticated s' = false).
Proof.
  unfold login, handleError. simpl.
  split; [reflexivity|]. split; intros ->; [reflexivity|].
  destruct (logout_clears s) as (A & R & _ & U & F). auto.
Qed.

Lemma login_failure_witness :
  Js.status_is 401 (Js.Http Demo.serverError) = false
  /\ fst (login Demo.platform (inr (Js.Http Demo.serverError)) 5 Demo.session)
     = Demo.session.
Proof.
  split; [reflexivity|].
  apply (login_failure Demo.platform (Js.Http Demo.serverError) 5 Demo.session).
  reflexivity.
Defined.

End AuthFacts.

(** ** The request authorization coordinator *)

Module InterceptorFacts.

Import Interceptor.

Lemma find_call_lookup k s i c :
  find_call k s = Some (i, c) -> refreshCalls s !! i = Some c.
Proof.
  unfold find_call. destruct (Js.findIndex _ _) as [n|]; [|discriminate].
  destruct (_ !! n) as [c'|] eqn:Hn; [|discriminate].
  intros [= <- <-]. exact Hn.
Qed.



(** Writing the phase of a call changes no count and no list that reads
    the calls by their origin only. *)
Lemma filter_insert_length {A} (f : A -> bool) (l : list A) : forall i c c',
  l !! i = Some c -> f c' = f c ->
  length (List.filter f (<[i := c']> l)) = length (List.filter f l).
Proof.
  induction l as [|x l IH]; intros i c c' Hi Hf; [reflexivity|].
  destruct i as [|i]; simpl in *.
  - injection Hi as ->. rewrite Hf. destruct (f c); reflexivity.
  - destruct (f x); simpl; rewrite (IH i c c' Hi Hf); reflexivity.
Qed.

Lemma filter_map_length {A} (f : A -> bool) (h : A -> A) (l : list A) :
  (forall c, f (h c) = f c) ->
  length (List.filter f (map h l)) = length (List.filter f l).
Proof.
  intros Hf. induction l as [|x l IH]; simpl; [reflexivity|].
  rewrite Hf. destruct (f x); simpl; rewrite IH; reflexivity.
Qed.

Lemma set_phase_frame k ph s :
  auth (set_phase k ph s) = auth s
  /\ isRefreshing (set_phase k ph s) = isRefreshing s
  /\ refreshTokenSubject (set_phase k ph s) = refreshTokenSubject s
  /\ waiting (set_phase k ph s) = waiting s
  /\ outcomes (set_phase k ph s) = outcomes s
  /\ retrying (set_phase k ph s) = retrying s
  /\ origin <$> refreshCalls (set_phase k ph s) = origin <$> refreshCalls s
  /\ call_id <$> refreshCalls (set_phase k ph s) = call_id <$> refreshCalls s.
Proof.
  unfold set_phase. destruct (find_call k s) as [[i c]|] eqn:Hf;
    [|repeat split].
  apply find_call_lookup in Hf. simpl. repeat split.
  - rewrite list_fmap_insert. apply list_insert_id.
    rewrite list_lookup_fmap, Hf. reflexivity.
  - rewrite list_fmap_insert. apply list_insert_id.
    rewrite list_lookup_fmap, Hf. reflexivity.
Qed.



Lemma subscribeRefresh_shape o s :
  let '(s', r) := subscribeRefresh o s in
  isRefreshing s' = isRefreshing s
  /\ refreshTokenSubject s' = refreshTokenSubject s
  /\ waiting s' = waiting s
  /\ outcomes s' = outcomes s
  /\ retrying s' = retrying s
  /\ match r with
     | None =>
         exists rt b,
           refreshCalls s'
           = refreshCalls s ++ [mkCall (nextCall s) rt o b Sent]
     | Some _ => refreshCalls s' = refreshCalls s
     end.
Proof.
  unfold subscribeRefresh.
  destruct (Auth.refreshToken_start (auth s)) as [a [rt|e]]; simpl.
  - repeat split. eexists _, _. reflexivity.
  - repeat split.
Qed.

(** Enough fuel: more than the number of calls changes nothing. *)
Lemma fail_post_fuel n : forall k e s,
  (length (refreshCalls s) <= n)%nat ->
  fail_post n k e s = fail_post (length (refreshCalls s)) k e s.
Proof.
  induction n as [|n IH]; intros k e s Hn.
  - replace (length (refreshCalls s)) with 0%nat by lia. reflexivity.
  - destruct (find_call k s) as [[i c]|] eqn:Hf.
    + pose proof (find_call_lookup _ _ _ _ Hf) as Hi.
      pose proof (lookup_lt_Some _ _ _ Hi) as Hlt.
      destruct (length (refreshCalls s)) as [|m] eqn:Hm; [lia|].
      cbn [fail_post]. rewrite Hf. cbn [Auth.refreshToken_error].
      destruct (origin c); try reflexivity.
      assert (Hlen : length (refreshCalls
                (catch401 (set_auth (Auth.logout (auth (remove_call i s)))
                                    (remove_call i s)))) = m).
      { cbn [catch401 set_auth remove_call set_calls refreshCalls].
        rewrite length_delete by (eexists; exact Hi). lia. }
      rewrite (IH _ _ _ ltac:(rewrite Hlen; lia)).
      rewrite <- Hlen. reflexivity.
    + destruct (length (refreshCalls s)); cbn [fail_post]; rewrite ?Hf;
        reflexivity.
Qed.






Lemma notify_count token s :
  length (interceptorCalls (notify token s)) = length (interceptorCalls s).
Proof.
  unfold interceptorCalls, notify. simpl. apply filter_map_length.
  intros c. destruct (phase c); reflexivity.
Qed.







(** The same happens between the proactive timer and the interceptor: the
    timer's refresh call is unanswered when a request comes back 401, and
    the interceptor sends a second one. *)
Example timer_and_interceptor_overlap :
  let s := run Demo.platform
             [TimerFired 1%nat;
              RequestFailed 7%nat (Some Demo.token_exp1000)
                            (Js.Http Demo.unauthorized)]
             (init Demo.session_late) in
  origin <$> refreshCalls s = [FromTimer; From401 7%nat].
Proof. vm_compute. reflexivity. Qed.

(** And within the interceptor, once a request that was sent again fails:
    request 1 starts a refresh, is sent again with the new token, and the
    timer armed by that refresh fires; request 2 comes back 401 and starts
    the interceptor's next refresh; the second attempt of request 1 fails
    with a 500, which the [catchError] of [handle401Error] takes for a
    failed refresh: it clears [isRefreshing] and logs out.  The timer's
    refresh then stores new tokens, request 3 comes back 401, finds the flag
    clear and starts one more refresh, while the call for request 2 is not
    answered yet. *)
Example retry_failure_reopens_refresh :
  let s := run Demo.platform
             [RequestFailed 1%nat (Some Demo.token_exp1000)
                            (Js.Http Demo.unauthorized);
              RefreshResponse 0%nat Demo.loginResponse 5;
              TimerFired 2%nat;
              RequestFailed 2%nat (Some Demo.token_exp1000)
                            (Js.Http Demo.unauthorized);
              RetryFailed 1%nat Demo.serverError;
              RefreshResponse 1%nat Demo.loginResponse 6;
              RequestFailed 3%nat (Some Demo.token_exp1000)
                            (Js.Http Demo.unauthorized)]
             (init Demo.session) in
  origin <$> refreshCalls s = [From401 2%nat; From401 3%nat]
  /\ phase <$> refreshCalls s = [Sent; Sent]
  /\ outcomes s
     = [Retried 1%nat Demo.token_exp1000;
        Rethrown 1%nat (Js.Http Demo.serverError)].
Proof. vm_compute. repeat split; reflexivity. Qed.




(** A failing refresh never reaches the requests behind the subject:
    whatever the state, they are all still waiting afterwards. *)
Lemma fail_post_leaves_waiting n : forall k e s,
  waiting (fail_post n k e s) = waiting s.
Proof.
  induction n as [|n IH]; intros k e s; [reflexivity|].
  cbn [fail_post]. destruct (find_call k s) as [[i c]|]; [|reflexivity].
  cbn [Auth.refreshToken_error]. destruct (origin c); try reflexivity.
  rewrite IH. reflexivity.
Qed.

(** C2 (the code departs from the claim). Request 1 comes back 401 and
    starts the refresh, request 2 comes back 401 and waits behind it, and
    the refresh fails with a 500.  Request 1 fails with that error and
    logout runs; request 2 is still waiting: it has neither failed nor been
    sent again. *)
Theorem waiting_request_left_hanging :
  let s := run Demo.platform
             [RequestFailed 1%nat (Some Demo.token_exp1000)
                            (Js.Http Demo.unauthorized);
              RequestFailed 2%nat (Some Demo.token_exp1000)
                            (Js.Http Demo.unauthorized);
              RefreshError 0%nat Demo.serverError]
             (init Demo.session) in
  waiting s = [2%nat]
  /\ outcomes s = [Failed 1%nat (Js.Http Demo.serverError)]
  /\ refreshCalls s = []
  /\ isRefreshing s = false
  /\ Auth.getAccessToken (auth s) = None
  /\ Auth.effects (auth s)
     = [Auth.PostRefresh "refresh-1"; Auth.PostLogout "refresh-1";
        Auth.Navigate "/login"; Auth.Navigate "/login"].
Proof. vm_compute. repeat split; reflexivity. Qed.

End InterceptorFacts.

(** ** More on the upload queue *)

Module UploadMore.

Import Upload UploadFacts.

(** Closed lists are checked by evaluation. *)
Lemma Forall_by_forallb {A} (p : A -> bool) (l : list A) :
  forallb p l = true -> Forall (fun x => p x = true) l.
Proof.
  induction l as [|x l IH]; simpl; intros H; constructor.
  - apply andb_true_iff in H. tauto.
  - apply IH. apply andb_true_iff in H. tauto.
Qed.

Lemma Forall_by_forallb_false {A} (p : A -> bool) (l : list A) :
  forallb (fun x => negb (p x)) l = true -> Forall (fun x => p x = false) l.
Proof.
  induction l as [|x l IH]; simpl; intros H; constructor.
  - apply andb_true_iff in H. apply negb_true_iff. tauto.
  - apply IH. apply andb_true_iff in H. tauto.
Qed.

(** *** The limit and the shape of reachable states *)

Lemma run_within_limit gen evs : forall s,
  within_limit s -> forallb no_start_by_id evs = true ->
  within_limit (run gen evs s).
Proof.
  induction evs as [|ev evs IH]; intros s H Hall; [exact H|].
  simpl in Hall. apply andb_true_iff in Hall as [Hev Hall].
  change (run gen (ev :: evs) s) with (run gen evs (handle gen s ev)).
  apply IH; [apply handle_within_limit; assumption | exact Hall].
Qed.

(** X1. As long as no upload is started through [startUploadById], the
    counter of active uploads never exceeds 3 and [maxConcurrent] stays 3,
    whatever else is called and whatever the requests deliver: admission,
    [startAllUploads], cancelling, retrying, clearing, progress, responses
    and transport errors. *)
Theorem limit_kept_without_startUploadById
    (gen : nat -> string) (evs : list Event) :
  forallb no_start_by_id evs = true ->
  let q := queue (run gen evs init) in
  activeUploads q <= MAX_CONCURRENT_UPLOADS
  /\ maxConcurrent q = MAX_CONCURRENT_UPLOADS.
Proof.
  intros Hall q.
  assert (H : within_limit (run gen evs init)).
  { apply run_within_limit; [split; [reflexivity | discriminate] | exact Hall]. }
  destruct H as [Hm Ha]. split; [exact Ha | exact Hm].
Qed.

Lemma limit_kept_without_startUploadById_witness :
  let q := queue (run Demo.gid
                    [AddFiles Demo.four; StartAll; Response "a" Demo.ok1;
                     Retry "b"; StartAll]%string init) in
  activeUploads q <= 3.
Proof.
  intros q.
  exact (proj1 (limit_kept_without_startUploadById Demo.gid
                  [AddFiles Demo.four; StartAll; Response "a" Demo.ok1;
                   Retry "b"; StartAll]%string eq_refl)).
Defined.

Lemma uid_length n : String.length (Extra.uid n) = n.
Proof. induction n as [|n IH]; simpl; [reflexivity | rewrite IH; reflexivity]. Qed.

Lemma uid_inj : Inj (=) (=) Extra.uid.
Proof.
  intros a b H. apply (f_equal String.length) in H.
  rewrite !uid_length in H. exact H.
Qed.

(** X2. When [generateId] never returns the same id twice, every state
    the service reaches has tasks with pairwise distinct ids, each id one
    the generator has handed out, and every task holds its file object; no
    call and no completion duplicates a task or drops its file. *)
Theorem reachable_tasks_distinct (gen : nat -> string) (evs : list Event) :
  Inj (=) (=) gen ->
  let s := run gen evs init in
  NoDup (ids s)
  /\ Forall (fun i => exists k, (k < idCalls s)%nat /\ i = gen k) (ids s)
  /\ Forall (fun f => has_file f = true) (files (queue s)).
Proof. intros Hinj s. exact (reachable_well_formed gen evs Hinj). Qed.

Lemma reachable_tasks_distinct_witness :
  NoDup (ids (run Extra.uid
                [AddFiles Demo.four; StartAll; Cancel "x";
                 AddFiles Demo.four]%string init)).
Proof.
  exact (proj1 (reachable_tasks_distinct Extra.uid
                  [AddFiles Demo.four; StartAll; Cancel "x";
                   AddFiles Demo.four]%string uid_inj)).
Defined.

(** *** Validation by the text after the last dot *)

Lemma split_nonempty sep s : Js.split sep s <> [].
Proof.
  destruct s as [|c s]; simpl; [discriminate|].
  destruct (Ascii.eqb c sep); [discriminate|].
  destruct (Js.split sep s); discriminate.
Qed.

Lemma split_app sep a b :
  Js.split sep (a ++ String sep b)%string = Js.split sep a ++ Js.split sep b.
Proof.
  induction a as [|c a IH]; simpl.
  - rewrite Ascii.eqb_refl. reflexivity.
  - destruct (Ascii.eqb c sep); [rewrite IH; reflexivity|].
    rewrite IH. pose proof (split_nonempty sep a) as Hne.
    destruct (Js.split sep a) as [|h t]; [contradiction | reflexivity].
Qed.

Lemma split_no_sep sep s :
  Extra.has_char sep s = false -> Js.split sep s = [s].
Proof.
  induction s as [|c s IH]; simpl; [reflexivity|].
  intros H. apply orb_false_iff in H as [Hc Hs].
  rewrite Hc, (IH Hs). reflexivity.
Qed.

Lemma fileExtension_suffix base ext size type :
  Extra.has_char "." ext = false ->
  fileExtension (mkFile (base ++ String "." ext) size type)
  = Some (Js.toLowerCase ext).
Proof.
  intros H. unfold fileExtension, Js.pop. simpl.
  rewrite split_app, (split_no_sep _ _ H), last_snoc. reflexivity.
Qed.

(** X3. A name is judged by the text after its last dot, in lower case: a
    file named [base.ext], where [ext] holds no dot, is accepted exactly
    when it is at most 100 MB, [ext] in lower case is pdf, docx or txt, and
    the whole name has at most 255 UTF-16 code units, however many bytes it
    takes. *)
Theorem validateFile_by_extension base ext size type :
  Extra.has_char "." ext = false ->
  isValid (validateFile (mkFile (base ++ String "." ext) size type))
  = (size <=? MAX_FILE_SIZE)
    && Js.includes ALLOWED_FILE_TYPES (Js.toLowerCase ext)
    && (Js.string_length (base ++ String "." ext) <=? 255)%nat.
Proof.
  intros H. unfold validateFile.
  rewrite (fileExtension_suffix base ext size type H).
  change (default ""%string (Some (Js.toLowerCase ext)))
    with (Js.toLowerCase ext).
  cbn [fsize name Js.truthy_opt].
  rewrite Z.gtb_ltb, Z.leb_antisym.
  destruct (MAX_FILE_SIZE <? size); [reflexivity|].
  cbn [negb andb].
  destruct (Js.includes ALLOWED_FILE_TYPES (Js.toLowerCase ext)) eqn:Hin.
  - assert (Ht : Js.truthy (Js.toLowerCase ext) = true).
    { unfold Js.truthy. destruct (Js.toLowerCase ext); [discriminate Hin|].
      reflexivity. }
    rewrite Ht. cbn [negb orb andb]. rewrite Nat.leb_antisym.
    destruct (255 <? _)%nat; reflexivity.
  - cbn [negb]. rewrite orb_true_r. reflexivity.
Qed.

Lemma validateFile_by_extension_witness :
  String.length (Demo.accented 130 ++ String "." "PDF") = 264%nat
  /\ isValid (validateFile
                (mkFile (Demo.accented 130 ++ String "." "PDF") 2048
                        "application/pdf"))
     = true.
Proof.
  split; [reflexivity|].
  rewrite (validateFile_by_extension (Demo.accented 130) "PDF" 2048
             "application/pdf" eq_refl).
  reflexivity.
Defined.

(** *** Admission in full *)

Lemma sift_partition gen fs : forall n,
  let '(ok, errs, n') := sift gen fs n in
  file <$> ok = Some <$> List.filter Extra.valid fs
  /\ errs = (fun f => (name f, verror (validateFile f)))
              <$> List.filter (fun f => negb (Extra.valid f)) fs
  /\ id <$> ok = gen <$> seq n (length ok)
  /\ n' = (n + length ok)%nat
  /\ Forall (fun u => status u = Pending /\ progress u = 0 /\ error u = None
                      /\ exists f, file u = Some f /\ originalName u = name f
                                   /\ size u = fsize f /\ mimetype u = ftype f)
            ok.
Proof.
  induction fs as [|f fs IH]; intros n.
  - simpl. repeat split; [lia | constructor].
  - cbn [sift List.filter].
    destruct (isValid (validateFile f)) eqn:Hv;
      change (isValid (validateFile f)) with (Extra.valid f) in Hv;
      rewrite Hv.
    + specialize (IH (S n)). destruct (sift gen fs (S n)) as [[ok errs] n'].
      destruct IH as (Hf & He & Hi & Hn & Hall).
      cbn [negb length seq]. rewrite !fmap_cons, Hf, Hi.
      split; [reflexivity|]. split; [exact He|]. split; [reflexivity|].
      split; [lia|].
      constructor; [|exact Hall].
      simpl. repeat split. exists f. repeat split.
    + specialize (IH n). destruct (sift gen fs n) as [[ok errs] n'].
      destruct IH as (Hf & He & Hi & Hn & Hall).
      cbn [negb]. rewrite fmap_cons, He.
      repeat split; assumption.
Qed.

(** X4. Admission splits a batch in input order: the accepted uploads are
    the candidates that pass validation, each holding its file and pending
    with progress 0; they get consecutive ids from the generator; every
    other candidate gives one report line; the report is shown exactly when
    a candidate was rejected; and the queue is emitted once, grown by the
    accepted uploads, even when there are none. *)
Theorem addFilesToQueue_partition
    (gen : nat -> string) (fs : list File) (s : State) :
  let s' := fst (addFilesToQueue gen fs s) in
  let accepted := snd (addFilesToQueue gen fs s) in
  let rejected := List.filter (fun f => negb (Extra.valid f)) fs in
  file <$> accepted = Some <$> List.filter Extra.valid fs
  /\ Forall (fun u => status u = Pending /\ progress u = 0 /\ error u = None
                      /\ exists f, file u = Some f /\ originalName u = name f
                                   /\ size u = fsize f /\ mimetype u = ftype f)
            accepted
  /\ id <$> accepted = gen <$> seq (idCalls s) (length accepted)
  /\ idCalls s' = (idCalls s + length accepted)%nat
  /\ files (queue s') = files (queue s) ++ accepted
  /\ published s' = queue s' :: published s
  /\ alerts s'
     = match rejected with
       | [] => alerts s
       | _ => ((fun f => (name f, verror (validateFile f))) <$> rejected)
                :: alerts s
       end.
Proof.
  unfold addFilesToQueue.
  pose proof (sift_partition gen fs (idCalls s)) as H.
  destruct (sift gen fs (idCalls s)) as [[ok errs] n'].
  destruct H as (Hf & He & Hi & Hn & Hall). simpl.
  split; [exact Hf|]. split; [exact Hall|].
  split; [exact Hi|]. split; [exact Hn|]. split; [reflexivity|].
  split; [reflexivity|].
  rewrite He.
  destruct (List.filter (fun f => negb (Extra.valid f)) fs); reflexivity.
Qed.

(** *** Completions that arrive after the queue was emptied *)

Lemma completion_on_empty_queue gen s ev :
  Extra.is_completion ev = true -> queue s = initialQueue ->
  queue (handle gen s ev) = initialQueue.
Proof.
  intros Hev Hq. destruct s as [q p r n c a]. simpl in Hq. subst q.
  destruct ev; try discriminate; simpl.
  - unfold onProgress. destruct total as [t|]; [|reflexivity].
    destruct (t =? 0); reflexivity.
  - unfold onResponse. destruct (successCount r0 >? 0); reflexivity.
  - reflexivity.
Qed.

(** X5. After [cancelAllUploads] the queue is empty with the counter at 0,
    and it stays so whatever the abandoned requests deliver afterwards:
    progress, responses and transport errors find no task and leave the
    counter at 0. *)
Theorem completions_after_cancelAllUploads
    (gen : nat -> string) (s : State) (evs : list Event) :
  forallb Extra.is_completion evs = true ->
  queue (run gen evs (cancelAllUploads s)) = initialQueue.
Proof.
  assert (H0 : queue (cancelAllUploads s) = initialQueue) by reflexivity.
  revert H0. generalize (cancelAllUploads s). clear s.
  induction evs as [|ev evs IH]; intros s Hq Hall; simpl in *; [exact Hq|].
  apply andb_true_iff in Hall as [Hev Hall].
  apply IH; [apply completion_on_empty_queue; assumption | exact Hall].
Qed.

Lemma completions_after_cancelAllUploads_witness :
  queue (run Demo.gid
           [Response "a" Demo.ok1; Failure "b" Demo.serverError;
            Progress "c" 5 (Some 10)]%string
           (cancelAllUploads
              (run Demo.gid [AddFiles Demo.four; StartAll] init)))
  = initialQueue.
Proof.
  apply (completions_after_cancelAllUploads Demo.gid). reflexivity.
Defined.

(** *** What settling does to the counter and to the task *)

Lemma processUploadQueue_no_pending s :
  Forall (fun f => is_pending f = false) (files (queue s)) ->
  processUploadQueue s = s.
Proof.
  intros H. unfold processUploadQueue.
  rewrite filter_none; [|intros x Hx; apply (proj1 (Forall_forall _ _) H);
                         apply list_elem_of_In; exact Hx].
  rewrite andb_false_r. reflexivity.
Qed.

Lemma updateFileStatus_no_pending i st e s :
  st <> Pending ->
  Forall (fun f => is_pending f = false) (files (queue s)) ->
  Forall (fun f => is_pending f = false)
         (files (queue (updateFileStatus i st e s))).
Proof.
  intros Hst H. unfold updateFileStatus.
  destruct (Js.findIndex _ _) as [n|]; [|exact H].
  destruct (_ !! n) as [old|]; [|exact H].
  simpl. apply Forall_insert; [exact H|].
  unfold is_pending, status_eqb. simpl. apply bool_decide_eq_false_2. exact Hst.
Qed.

(** X6. With no upload pending, a response releases one slot and a
    transport error releases two: the error is handled once inside
    [catchError] and once more by the subscription's error callback, and
    each pass lowers [activeUploads] by one, not below zero. *)
Theorem settle_releases_slots
    (s : State) (i : string) (r : UploadResult) (e : Js.HttpError) :
  Forall (fun f => is_pending f = false) (files (queue s)) ->
  activeUploads (queue (onResponse i r s))
  = Z.max 0 (activeUploads (queue s) - 1)
  /\ activeUploads (queue (onError i e s))
     = Z.max 0 (activeUploads (queue s) - 2).
Proof.
  intros H. split.
  - unfold onResponse.
    rewrite processUploadQueue_no_pending.
    + simpl. destruct (_ >? _); simpl;
        destruct (updateFileStatus_counters i Success None s) as (A1 & _);
        destruct (updateFileStatus_counters i Failed
                    (Js.or_else (head (failed r))
                                (Some "Upload failed"%string)) s) as (A2 & _);
        [rewrite A1 | rewrite A2]; reflexivity.
    + simpl. destruct (_ >? _);
        [exact (updateFileStatus_no_pending i Success None s
                  ltac:(discriminate) H)
        | apply updateFileStatus_no_pending; [discriminate | exact H]].
  - unfold onError, handleUploadError.
    set (msg := Some (getErrorMessage e)).
    assert (H1 : Forall (fun f => is_pending f = false)
                        (files (queue (updateFileStatus i Failed msg s))))
      by (apply updateFileStatus_no_pending; [discriminate | exact H]).
    rewrite (processUploadQueue_no_pending
               (decrementActiveUploads (updateFileStatus i Failed msg s)) H1).
    assert (H2 : Forall (fun f => is_pending f = false)
                        (files (queue (updateFileStatus i Failed msg
                           (decrementActiveUploads
                              (updateFileStatus i Failed msg s))))))
      by (apply updateFileStatus_no_pending; [discriminate | exact H1]).
    rewrite processUploadQueue_no_pending by exact H2.
    simpl.
    destruct (updateFileStatus_counters i Failed msg
                (decrementActiveUploads (updateFileStatus i Failed msg s)))
      as (-> & _).
    simpl.
    destruct (updateFileStatus_counters i Failed msg s) as (-> & _).
    lia.
Qed.

Lemma settle_releases_slots_witness :
  let s := run Demo.gid
             [AddFiles [Demo.pdf "A.pdf"; Demo.pdf "B.pdf"; Demo.pdf "C.pdf"];
              StartAll]%string init in
  activeUploads (queue s) = 3
  /\ activeUploads (queue (onError "a" Demo.serverError s)) = 1
  /\ status <$> files (queue (onError "a" Demo.serverError s))
     = [Failed; Uploading; Uploading].
Proof.
  intros s. split; [reflexivity|]. split; [|reflexivity].
  assert (H : Forall (fun f => is_pending f = false) (files (queue s))).
  { apply Forall_by_forallb_false. vm_compute. reflexivity. }
  destruct (settle_releases_slots s "a" Demo.ok1 Demo.serverError H)
    as (_ & He).
  rewrite He. reflexivity.
Defined.

(** *** What the scheduler touches *)

Lemma same_id_same_task (l : list FileUpload) n m f g :
  NoDup (id <$> l) -> l !! n = Some f -> l !! m = Some g -> id f = id g ->
  n = m /\ f = g.
Proof.
  intros Hnd Hn Hm Hid.
  assert (n = m) as ->.
  { eapply (NoDup_lookup (id <$> l) n m (id f) Hnd).
    - rewrite list_lookup_fmap, Hn. reflexivity.
    - rewrite list_lookup_fmap, Hm, Hid. reflexivity. }
  split; [reflexivity | congruence].
Qed.

Lemma started_was_pending (q : UploadQueue) n f :
  NoDup (id <$> files q) -> files q !! n = Some f ->
  id f ∈ first_pending q -> is_pending f = true.
Proof.
  intros Hnd Hn Hin. unfold first_pending in Hin.
  apply elem_of_take in Hin as (j & Hj & _).
  apply list_elem_of_lookup_2, list_elem_of_fmap in Hj as (g & Hid & Hg).
  apply list_elem_of_In, List.filter_In in Hg as [Hg Hp].
  apply list_elem_of_In, list_elem_of_lookup in Hg as (m & Hm).
  destruct (same_id_same_task _ _ _ _ _ Hnd Hn Hm Hid) as (_ & ->).
  exact Hp.
Qed.

(** X7. With distinct ids and files in place, a run of the scheduler leaves
    every task at its position; a task that is not pending is not changed
    at all, and a pending one either stays as it is or changes in its status
    only, to uploading. *)
Theorem processUploadQueue_touches_pending_only
    (s : State) (n : nat) (f : FileUpload) :
  NoDup (ids s) ->
  Forall (fun f => has_file f = true) (files (queue s)) ->
  files (queue s) !! n = Some f ->
  (is_pending f = false ->
   files (queue (processUploadQueue s)) !! n = Some f)
  /\ (is_pending f = true ->
      files (queue (processUploadQueue s)) !! n = Some f
      \/ files (queue (processUploadQueue s)) !! n
         = Some (mkFileUpload (id f) (originalName f) (size f) (mimetype f)
                              Uploading (progress f) (error f) (file f))).
Proof.
  intros Hnd Hfiles Hn.
  destruct (processUploadQueue_spec s Hnd Hfiles) as (F & _).
  cbv zeta in F. rewrite F. unfold mark_uploading.
  rewrite list_lookup_fmap, Hn. simpl. split.
  - intros Hp. case_bool_decide as Hin; [|reflexivity].
    rewrite (started_was_pending (queue s) n f Hnd Hn Hin) in Hp.
    discriminate.
  - intros _. case_bool_decide; [right | left]; [|reflexivity].
    unfold with_status, Js.or_else. simpl. reflexivity.
Qed.

Lemma processUploadQueue_touches_pending_only_witness :
  let s := run Demo.gid
             [AddFiles Demo.four; StartAll; Response "a" Demo.ok1]%string
             init in
  files (queue (processUploadQueue s)) !! 0%nat
  = Some (mkFileUpload "a" "A.pdf" 1024 "application/pdf" Success 0 None
                       (Some (Demo.pdf "A.pdf"))).
Proof.
  intros s.
  assert (Hnd : NoDup (ids s)).
  { apply (bool_decide_unpack _). vm_compute. exact I. }
  assert (Hfiles : Forall (fun f => has_file f = true) (files (queue s))).
  { apply Forall_by_forallb. vm_compute. reflexivity. }
  apply (processUploadQueue_touches_pending_only s 0 _ Hnd Hfiles eq_refl).
  reflexivity.
Defined.

Lemma processUploadQueue_keeps s n f :
  NoDup (ids s) ->
  Forall (fun f => has_file f = true) (files (queue s)) ->
  files (queue s) !! n = Some f -> is_pending f = false ->
  files (queue (processUploadQueue s)) !! n = Some f.
Proof.
  intros Hnd Hfiles Hn Hp.
  destruct (processUploadQueue_spec s Hnd Hfiles) as (F & _).
  cbv zeta in F. rewrite F. unfold mark_uploading.
  rewrite list_lookup_fmap, Hn. simpl.
  case_bool_decide as Hin; [|reflexivity].
  rewrite (started_was_pending (queue s) n f Hnd Hn Hin) in Hp. discriminate.
Qed.

Lemma with_status_idem st e f :
  with_status st e (with_status st e f) = with_status st e f.
Proof.
  unfold with_status, Js.or_else. simpl.
  destruct (Js.truthy_opt e); reflexivity.
Qed.

Lemma getErrorMessage_truthy e : Js.truthy (getErrorMessage e) = true.
Proof.
  unfold getErrorMessage.
  destruct (Js.body_message e) as [m|]; simpl.
  - destruct (Js.truthy m) eqn:Hm; [exact Hm|].
    destruct (Js.message e) as [m'|]; simpl; [|reflexivity].
    destruct (Js.truthy m') eqn:Hm'; [exact Hm' | reflexivity].
  - destruct (Js.message e) as [m'|]; simpl; [|reflexivity].
    destruct (Js.truthy m') eqn:Hm'; [exact Hm' | reflexivity].
Qed.

(** One pass of a completion handler over a queued task: the status is
    written, the counter lowered, the scheduler run. *)
Lemma settle_pass s t i st e n f :
  queue t = queue (updateFileStatus i st e s) ->
  NoDup (ids s) ->
  Forall (fun f => has_file f = true) (files (queue s)) ->
  files (queue s) !! n = Some f -> id f = i -> st <> Pending ->
  let s' := processUploadQueue (decrementActiveUploads t) in
  files (queue s') !! n = Some (with_status st e f)
  /\ NoDup (ids s')
  /\ Forall (fun f => has_file f = true) (files (queue s')).
Proof.
  intros Hq Hnd Hfiles Hn Hid Hst s'.
  assert (Hq' : queue s'
                = queue (processUploadQueue
                           (decrementActiveUploads
                              (updateFileStatus i st e s)))).
  { apply processUploadQueue_queue, decrementActiveUploads_queue, Hq. }
  set (s1 := decrementActiveUploads (updateFileStatus i st e s)) in *.
  assert (Hnd1 : NoDup (ids s1)).
  { unfold s1. rewrite decrementActiveUploads_ids, updateFileStatus_ids.
    exact Hnd. }
  assert (Hf1 : Forall (fun f => has_file f = true) (files (queue s1))).
  { apply updateFileStatus_has_file, Hfiles. }
  assert (Hn1 : files (queue s1) !! n = Some (with_status st e f)).
  { unfold s1. simpl. rewrite (updateFileStatus_files _ _ _ _ Hnd).
    rewrite list_lookup_fmap, Hn. simpl.
    rewrite (proj2 (has_id_true i f) Hid). reflexivity. }
  unfold ids. rewrite Hq'. split; [|split].
  - apply processUploadQueue_keeps; try assumption.
    unfold is_pending, status_eqb. simpl.
    apply bool_decide_eq_false_2. exact Hst.
  - change (NoDup (ids (processUploadQueue s1))).
    rewrite processUploadQueue_ids. exact Hnd1.
  - apply processUploadQueue_has_file; assumption.
Qed.

(** X8. With distinct ids, what the completion of a queued task's request
    writes into that task stays there after the scheduler has run: a
    response that counts a success makes it [Success]; a response that
    counts none makes it [Failed] with the first reported error, or
    "Upload failed" when there is none; a transport error makes it [Failed]
    with the message of the error, which is never empty. *)
Theorem settle_marks_task
    (s : State) (n : nat) (f : FileUpload) (r : UploadResult)
    (e : Js.HttpError) :
  NoDup (ids s) ->
  Forall (fun f => has_file f = true) (files (queue s)) ->
  files (queue s) !! n = Some f ->
  files (queue (onResponse (id f) r s)) !! n
  = Some (if successCount r >? 0 then with_status Success None f
          else with_status Failed
                 (Js.or_else (head (failed r)) (Some "Upload failed"%string))
                 f)
  /\ files (queue (onError (id f) e s)) !! n
     = Some (with_status Failed (Some (getErrorMessage e)) f)
  /\ error (with_status Failed (Some (getErrorMessage e)) f)
     = Some (getErrorMessage e)
  /\ Js.truthy (getErrorMessage e) = true.
Proof.
  intros Hnd Hfiles Hn. split; [|split; [|split]].
  - unfold onResponse. destruct (successCount r >? 0).
    + apply (settle_pass s _ (id f) Success None n f);
        try assumption; try reflexivity; discriminate.
    + apply (settle_pass s _ (id f) Failed _ n f);
        try assumption; try reflexivity; discriminate.
  - unfold onError, handleUploadError.
    set (msg := Some (getErrorMessage e)).
    destruct (settle_pass s (updateFileStatus (id f) Failed msg s)
                (id f) Failed msg n f eq_refl Hnd Hfiles Hn eq_refl
                ltac:(discriminate)) as (Hn1 & Hnd1 & Hf1).
    cbv zeta in Hn1, Hnd1, Hf1.
    set (s1 := processUploadQueue
                 (decrementActiveUploads
                    (updateFileStatus (id f) Failed msg s))) in *.
    destruct (settle_pass s1 (updateFileStatus (id f) Failed msg s1)
                (id f) Failed msg n (with_status Failed msg f) eq_refl
                Hnd1 Hf1 Hn1 eq_refl ltac:(discriminate)) as (Hn2 & _).
    cbv zeta in Hn2. rewrite Hn2, with_status_idem. reflexivity.
  - unfold with_status, Js.or_else. simpl.
    rewrite getErrorMessage_truthy. reflexivity.
  - apply getErrorMessage_truthy.
Qed.

Lemma settle_marks_task_witness :
  let s := run Demo.gid [AddFiles Demo.four; StartAll]%string init in
  option_map status (files (queue (onError "b" Demo.serverError s)) !! 1%nat)
  = Some Failed
  /\ option_map error (files (queue (onError "b" Demo.serverError s)) !! 1%nat)
     = Some (Some "Http failure response"%string).
Proof.
  intros s.
  assert (Hnd : NoDup (ids s)).
  { apply (bool_decide_unpack _). vm_compute. exact I. }
  assert (Hfiles : Forall (fun f => has_file f = true) (files (queue s))).
  { apply Forall_by_forallb. vm_compute. reflexivity. }
  destruct (settle_marks_task s 1
              (mkFileUpload "b" "B.pdf" 1024 "application/pdf" Uploading 0
                            None (Some (Demo.pdf "B.pdf")))
              Demo.ok1 Demo.serverError Hnd Hfiles eq_refl)
    as (_ & He & _).
  cbn [id] in He. rewrite He. split; reflexivity.
Defined.

(** *** Retrying *)

Lemma findIndex_unique (l : list FileUpload) n f :
  NoDup (id <$> l) -> l !! n = Some f ->
  Js.findIndex (has_id (id f)) l = Some n.
Proof.
  intros Hnd Hn.
  destruct (Js.findIndex (has_id (id f)) l) as [m|] eqn:Hm.
  - destruct (findIndex_Some _ _ _ Hm) as (g & Hg & Hid).
    apply has_id_true in Hid.
    destruct (same_id_same_task l m n g f Hnd Hg Hn Hid) as (-> & _).
    reflexivity.
  - pose proof (findIndex_None _ _ Hm f (list_elem_of_lookup_2 _ _ _ Hn)) as H.
    rewrite (proj2 (has_id_true (id f) f) eq_refl) in H. discriminate.
Qed.

(** X9. [retryUpload] acts on a failed task only: when the first task of
    that id is in another state, or there is none, nothing at all changes.
    With distinct ids, retrying a failed task keeps every id in place and
    leaves that task with progress 0, no error, and pending or, when the
    scheduler found a slot for it, uploading. *)
Theorem retryUpload_effect (s : State) (i : string) :
  (match Js.findIndex (has_id i) (files (queue s)) with
   | Some n =>
       match files (queue s) !! n with
       | Some f => status f <> Failed
       | None => True
       end
   | None => True
   end -> retryUpload i s = s)
  /\ forall n f,
       NoDup (ids s) ->
       Forall (fun f => has_file f = true) (files (queue s)) ->
       files (queue s) !! n = Some f -> id f = i -> status f = Failed ->
       ids (retryUpload i s) = ids s
       /\ exists st,
            (st = Pending \/ st = Uploading)
            /\ files (queue (retryUpload i s)) !! n
               = Some (mkFileUpload (id f) (originalName f) (size f)
                                    (mimetype f) st 0 None (file f)).
Proof.
  split.
  - unfold retryUpload.
    destruct (Js.findIndex _ _) as [n|]; [|reflexivity].
    destruct (_ !! n) as [f|]; [|reflexivity].
    intros Hst. unfold status_eqb.
    rewrite bool_decide_eq_false_2 by exact Hst. reflexivity.
  - intros n f Hnd Hfiles Hn Hid Hst. subst i. unfold retryUpload.
    rewrite (findIndex_unique _ n f Hnd Hn), Hn. unfold status_eqb.
    rewrite bool_decide_eq_true_2 by exact Hst.
    set (s0 := mutate (set_files (<[n:=reset_for_retry f]> (files (queue s)))
                                 (queue s)) s).
    assert (Hids0 : ids s0 = ids s).
    { unfold ids, s0. simpl. apply (insert_keeps_ids _ _ f); [exact Hn|].
      reflexivity. }
    assert (Hnd0 : NoDup (ids s0)) by (rewrite Hids0; exact Hnd).
    assert (Hf0 : Forall (fun f => has_file f = true) (files (queue s0))).
    { unfold s0. simpl. apply Forall_insert; [exact Hfiles|].
      exact (proj1 (Forall_lookup _ _) Hfiles n f Hn). }
    split; [rewrite processUploadQueue_ids; exact Hids0|].
    destruct (processUploadQueue_spec s0 Hnd0 Hf0) as (F & _).
    cbv zeta in F. rewrite F. unfold mark_uploading.
    rewrite list_lookup_fmap. unfold s0 at 2. simpl.
    rewrite list_lookup_insert_eq by (eapply lookup_lt_Some; exact Hn).
    simpl. case_bool_decide.
    + exists Uploading. split; [right; reflexivity | reflexivity].
    + exists Pending. split; [left; reflexivity | reflexivity].
Qed.

Lemma retryUpload_effect_witness :
  let s := run Demo.gid
             [AddFiles Demo.four; StartAll; Failure "a" Demo.serverError]%string
             init in
  ids (retryUpload "a" s) = ["a"; "b"; "c"; "d"]%string.
Proof.
  intros s.
  assert (Hnd : NoDup (ids s)).
  { apply (bool_decide_unpack _). vm_compute. exact I. }
  assert (Hfiles : Forall (fun f => has_file f = true) (files (queue s))).
  { apply Forall_by_forallb. vm_compute. reflexivity. }
  destruct (retryUpload_effect s "a") as (_ & H).
  destruct (H 0%nat
              (mkFileUpload "a" "A.pdf" 1024 "application/pdf" Failed 0
                 (Some "Http failure response"%string)
                 (Some (Demo.pdf "A.pdf")))
              Hnd Hfiles eq_refl eq_refl eq_refl) as (Hids & _).
  rewrite Hids. reflexivity.
Defined.

(** *** Progress *)

Lemma updateFileProgress_frame i p s :
  status <$> files (queue (updateFileProgress i p s))
  = status <$> files (queue s)
  /\ activeUploads (queue (updateFileProgress i p s)) = activeUploads (queue s)
  /\ requests (updateFileProgress i p s) = requests s.
Proof.
  unfold updateFileProgress.
  destruct (Js.findIndex _ _) as [n|]; [|auto].
  destruct (_ !! n) as [old|] eqn:Hn; [|auto].
  simpl. split; [|auto].
  rewrite list_fmap_insert. apply list_insert_id.
  rewrite list_lookup_fmap, Hn. reflexivity.
Qed.

(** X10. A progress event with [0 <= loaded <= total] and a positive total
    writes a whole percentage between 0 and 100, which is 0 for nothing
    loaded and 100 for everything loaded, into the task of that id, and
    changes no status, no id, not the counter and sends nothing. *)
Theorem onProgress_percentage (s : State) (i : string) (loaded total : Z) :
  0 < total -> 0 <= loaded <= total ->
  let p := (200 * loaded + total) / (2 * total) in
  let s' := onProgress i loaded (Some total) s in
  0 <= p <= 100
  /\ (loaded = 0 -> p = 0)
  /\ (loaded = total -> p = 100)
  /\ status <$> files (queue s') = status <$> files (queue s)
  /\ ids s' = ids s
  /\ activeUploads (queue s') = activeUploads (queue s)
  /\ requests s' = requests s
  /\ (forall n f,
        NoDup (ids s) -> files (queue s) !! n = Some f -> id f = i ->
        files (queue s') !! n = Some (with_progress p f)).
Proof.
  intros Ht Hl p s'.
  assert (Hs' : s' = updateFileProgress i p s).
  { unfold s', onProgress. rewrite (proj2 (Z.eqb_neq total 0)) by lia.
    reflexivity. }
  rewrite Hs'.
  destruct (updateFileProgress_frame i p s) as (Hst & Ha & Hr).
  destruct (updateFileProgress_shape i p s) as (Hi & _).
  split; [|split; [|split]].
  - unfold p. split.
    + apply Z.div_pos; lia.
    + assert ((200 * loaded + total) / (2 * total) < 101); [|lia].
      apply Z.div_lt_upper_bound; lia.
  - intros ->. unfold p. apply Z.div_small. lia.
  - intros ->. unfold p.
    replace (200 * total + total) with (100 * (2 * total) + total) by lia.
    rewrite Z.div_add_l by lia. rewrite Z.div_small by lia. lia.
  - split; [exact Hst|]. split; [exact Hi|]. split; [exact Ha|].
    split; [exact Hr|].
    intros n f Hnd Hn Hid. subst i. unfold updateFileProgress.
    rewrite (findIndex_unique _ n f Hnd Hn), Hn. simpl.
    apply list_lookup_insert_eq. eapply lookup_lt_Some. exact Hn.
Qed.

Lemma onProgress_percentage_witness :
  let s := run Demo.gid [AddFiles Demo.four; StartAll]%string init in
  option_map progress
    (files (queue (onProgress "b" 333 (Some 1000) s)) !! 1%nat)
  = Some 33.
Proof.
  intros s.
  assert (Hnd : NoDup (ids s)).
  { apply (bool_decide_unpack _). vm_compute. exact I. }
  pose proof (onProgress_percentage s "b" 333 1000 ltac:(lia) ltac:(lia))
    as (_ & _ & _ & _ & _ & _ & _ & H).
  rewrite (H 1%nat
             (mkFileUpload "b" "B.pdf" 1024 "application/pdf" Uploading 0
                           None (Some (Demo.pdf "B.pdf")))
             Hnd eq_refl eq_refl).
  reflexivity.
Defined.

(** *** Clearing settled tasks *)

Lemma filter_sublist {A} (p : A -> bool) (l : list A) :
  List.filter p l `sublist_of` l.
Proof.
  induction l as [|x l IH]; simpl; [constructor|].
  destruct (p x); [apply sublist_skip | apply sublist_cons]; exact IH.
Qed.

Lemma pending_of_active (l : list FileUpload) :
  List.filter is_pending (List.filter is_active l) = List.filter is_pending l.
Proof.
  induction l as [|x l IH]; simpl; [reflexivity|].
  unfold is_active at 1. destruct (is_pending x) eqn:Hp.
  - change (status_eqb (status x) Pending) with (is_pending x).
    rewrite Hp. simpl. rewrite Hp, IH. reflexivity.
  - change (status_eqb (status x) Pending) with (is_pending x).
    rewrite Hp. simpl. destruct (status_eqb _ _); simpl; [rewrite Hp|];
      exact IH.
Qed.

Lemma active_after_mark started (l : list FileUpload) :
  Forall (fun f => id f ∈ started -> is_pending f = true) l ->
  List.filter is_active (mark_uploading started l)
  = mark_uploading started (List.filter is_active l).
Proof.
  unfold mark_uploading.
  induction 1 as [|x l Hx _ IH]; [reflexivity|].
  rewrite fmap_cons. cbn [List.filter]. rewrite IH.
  case_bool_decide as Hin.
  - assert (Ha : is_active x = true).
    { unfold is_active. change (status_eqb (status x) Pending)
        with (is_pending x). rewrite (Hx Hin). reflexivity. }
    rewrite Ha, fmap_cons, bool_decide_eq_true_2 by exact Hin. reflexivity.
  - destruct (is_active x); [|reflexivity].
    rewrite fmap_cons, bool_decide_eq_false_2 by exact Hin. reflexivity.
Qed.

Lemma queue_ext (a b : UploadQueue) :
  files a = files b -> activeUploads a = activeUploads b ->
  maxConcurrent a = maxConcurrent b -> a = b.
Proof. destruct a, b; simpl; congruence. Qed.

(** X11. [clearCompletedUploads] drops the succeeded and failed tasks and
    nothing else: the pending and uploading ones stay in order and the
    counter is untouched, so the screen then counts no completed upload and
    as many pending ones as before.  With distinct ids it does not matter to
    the queue whether the scheduler runs before or after the clearing. *)
Theorem clearCompletedUploads_effect (s : State) :
  let s' := clearCompletedUploads s in
  files (queue s') = List.filter is_active (files (queue s))
  /\ activeUploads (queue s') = activeUploads (queue s)
  /\ UploadComponent.getCompletedUploadsCount (queue s') = 0%nat
  /\ UploadComponent.getPendingUploadsCount (queue s')
     = UploadComponent.getPendingUploadsCount (queue s)
  /\ queue (clearCompletedUploads s') = queue s'
  /\ (NoDup (ids s) ->
      Forall (fun f => has_file f = true) (files (queue s)) ->
      queue (processUploadQueue s')
      = queue (clearCompletedUploads (processUploadQueue s))).
Proof.
  intros s'. split; [reflexivity|]. split; [reflexivity|].
  split; [|split; [|split]].
  - unfold UploadComponent.getCompletedUploadsCount. simpl.
    rewrite filter_none; [reflexivity|].
    intros f Hf. apply List.filter_In in Hf as [_ Hf].
    unfold is_active, UploadComponent.is_settled, status_eqb in *.
    destruct (status f); try discriminate; reflexivity.
  - unfold UploadComponent.getPendingUploadsCount. simpl.
    rewrite pending_of_active. reflexivity.
  - apply queue_ext; try reflexivity. simpl.
    induction (files (queue s)) as [|x l IH]; simpl; [reflexivity|].
    destruct (is_active x) eqn:Hx; simpl; [rewrite Hx, IH|]; [reflexivity|].
    exact IH.
  - intros Hnd Hfiles.
    assert (Hnd' : NoDup (ids s')).
    { unfold ids, s'. simpl. eapply sublist_NoDup; [exact Hnd|].
      apply fmap_sublist, filter_sublist. }
    assert (Hfiles' : Forall (fun f => has_file f = true) (files (queue s'))).
    { unfold s'. simpl. apply Forall_filter_bool, Hfiles. }
    destruct (processUploadQueue_spec s' Hnd' Hfiles') as (F' & A' & M' & _).
    destruct (processUploadQueue_spec s Hnd Hfiles) as (F & A & M & _).
    cbv zeta in *.
    assert (Hfp : first_pending (queue s') = first_pending (queue s)).
    { unfold first_pending, slots, s'. simpl. rewrite pending_of_active.
      reflexivity. }
    apply queue_ext.
    + rewrite F', Hfp.
      transitivity (List.filter is_active
                      (files (queue (processUploadQueue s))));
        [|reflexivity].
      rewrite F. symmetry. apply active_after_mark.
      apply Forall_lookup. intros n f Hn Hin.
      exact (started_was_pending (queue s) n f Hnd Hn Hin).
    + rewrite A', Hfp.
      transitivity (activeUploads (queue (processUploadQueue s)));
        [|reflexivity].
      rewrite A. reflexivity.
    + rewrite M'.
      transitivity (maxConcurrent (queue (processUploadQueue s)));
        [|reflexivity].
      rewrite M. reflexivity.
Qed.

Lemma clearCompletedUploads_effect_witness :
  let s := run Demo.gid
             [AddFiles Demo.four; StartAll; Response "a" Demo.ok1;
              Failure "b" Demo.serverError; AddFiles Demo.four]%string init in
  status <$> files (queue (processUploadQueue (clearCompletedUploads s)))
  = status <$> files (queue (clearCompletedUploads (processUploadQueue s))).
Proof.
  intros s.
  assert (Hnd : NoDup (ids s)).
  { apply (bool_decide_unpack _). vm_compute. exact I. }
  assert (Hfiles : Forall (fun f => has_file f = true) (files (queue s))).
  { apply Forall_by_forallb. vm_compute. reflexivity. }
  destruct (clearCompletedUploads_effect s) as (_ & _ & _ & _ & _ & H).
  rewrite (H Hnd Hfiles). reflexivity.
Defined.

(** *** The "upload complete" notification *)

Lemma updateFileStatus_completeCount i st e s :
  uploadCompleteCount (updateFileStatus i st e s) = uploadCompleteCount s.
Proof.
  unfold updateFileStatus.
  destruct (Js.findIndex _ _); [|reflexivity].
  destruct (_ !! _); reflexivity.
Qed.

Lemma processUploadQueue_completeCount s :
  uploadCompleteCount (processUploadQueue s) = uploadCompleteCount s.
Proof.
  unfold processUploadQueue. destruct (_ && _); [|reflexivity].
  generalize (take (Z.to_nat (maxConcurrent (queue s)
                              - activeUploads (queue s)))
                   (List.filter is_pending (files (queue s)))).
  intros L. revert s. induction L as [|f L IH]; intros s; simpl;
    [reflexivity|].
  rewrite IH. unfold startSingleUpload. destruct (file f); simpl;
    apply updateFileStatus_completeCount.
Qed.

Lemma cancelLoop_completeCount n : forall i s,
  uploadCompleteCount (cancelLoop n i s) = uploadCompleteCount s.
Proof.
  induction n as [|n IH]; intros i s; simpl; [reflexivity|].
  rewrite IH. destruct (_ !! _) as [f|]; [|reflexivity].
  destruct (is_active f); [apply updateFileStatus_completeCount|reflexivity].
Qed.

Lemma handle_completeCount gen s ev :
  uploadCompleteCount (handle gen s ev)
  = (uploadCompleteCount s + Extra.successful_responses [ev])%nat.
Proof.
  unfold Extra.successful_responses.
  destruct ev; cbn [handle List.filter length]; rewrite ?Nat.add_0_r.
  - unfold addFilesToQueue.
    destruct (sift gen fs (idCalls s)) as [[ok errs] n]. reflexivity.
  - apply processUploadQueue_completeCount.
  - unfold startUploadById. destruct (Js.find _ _) as [f|]; [|reflexivity].
    unfold startSingleUpload. destruct (file f); simpl;
      apply updateFileStatus_completeCount.
  - reflexivity.
  - unfold cancelAllUploads. simpl. apply cancelLoop_completeCount.
  - unfold retryUpload.
    destruct (Js.findIndex _ _); [|reflexivity].
    destruct (_ !! _); [|reflexivity].
    destruct (status_eqb _ _); [|reflexivity].
    rewrite processUploadQueue_completeCount. reflexivity.
  - reflexivity.
  - unfold onProgress. destruct total as [t|]; [|reflexivity].
    destruct (t =? 0); [reflexivity|].
    unfold updateFileProgress.
    destruct (Js.findIndex _ _); [|reflexivity].
    destruct (_ !! _); reflexivity.
  - unfold onResponse. rewrite processUploadQueue_completeCount. simpl.
    destruct (successCount r >? 0); simpl;
      rewrite updateFileStatus_completeCount; lia.
  - unfold onError, handleUploadError.
    rewrite processUploadQueue_completeCount. simpl.
    rewrite updateFileStatus_completeCount, processUploadQueue_completeCount.
    simpl. apply updateFileStatus_completeCount.
Qed.

(** X12. The "upload complete" notification fires once for every response
    that counts at least one stored file, and for nothing else: not for a
    response that counts none, not for a transport error, not for any call
    of the service.  It fires also when the task of that response has been
    cancelled meanwhile. *)
Theorem uploadComplete_counts_successes
    (gen : nat -> string) (evs : list Event) (s : State) :
  uploadCompleteCount (run gen evs s)
  = (uploadCompleteCount s + Extra.successful_responses evs)%nat.
Proof.
  revert s. induction evs as [|ev evs IH]; intros s.
  - simpl. unfold Extra.successful_responses. simpl. lia.
  - cbn [run fold_left]. fold (run gen evs (handle gen s ev)).
    rewrite IH, handle_completeCount.
    unfold Extra.successful_responses. cbn [List.filter].
    destruct ev; cbn [length]; try lia.
    destruct (successCount r >? 0); cbn [length]; lia.
Qed.

(** *** The icon of an accepted file *)

(** X13. Every file that [validateFile] accepts is shown with the icon of
    its type on the screen, never with the generic one. *)
Theorem accepted_file_has_type_icon (f : File) :
  isValid (validateFile f) = true ->
  UploadComponent.getFileIcon (name f) <> "insert_drive_file"%string.
Proof.
  unfold validateFile, UploadComponent.getFileIcon, fileExtension.
  destruct (fsize f >? MAX_FILE_SIZE); [discriminate|].
  destruct (option_map Js.toLowerCase (Js.pop (Js.split "." (name f))))
    as [ext|]; [|discriminate].
  change (default ""%string (Some ext)) with ext.
  unfold Js.includes, ALLOWED_FILE_TYPES. cbn [existsb Js.truthy_opt].
  destruct (String.eqb ext "pdf") eqn:H1;
    [intros _; cbv iota; discriminate|].
  destruct (String.eqb ext "docx") eqn:H2;
    [intros _; cbn [orb]; cbv iota; discriminate|].
  destruct (String.eqb ext "txt") eqn:H3;
    [intros _; cbn [orb]; destruct (String.eqb ext "doc"); discriminate|].
  rewrite orb_true_r. discriminate.
Qed.

Lemma accepted_file_has_type_icon_witness :
  UploadComponent.getFileIcon "notes.TXT" <> "insert_drive_file"%string.
Proof.
  apply (accepted_file_has_type_icon (mkFile "notes.TXT" 10 "text/plain")).
  reflexivity.
Defined.

End UploadMore.

(** ** More on the token lifecycle manager *)

Module AuthMore.

Import Auth.

(** *** Logging out *)

Lemma clearTimeout_removes h ts :
  Forall (fun t => fst t <> h) (clearTimeout h ts).
Proof.
  unfold clearTimeout. induction ts as [|t ts IH]; simpl; [constructor|].
  destruct (Nat.eqb (fst t) h) eqn:Ht; simpl; [exact IH|].
  constructor; [|exact IH]. apply Nat.eqb_neq. exact Ht.
Qed.

(** X14. [logout] ends the session whatever it was: afterwards
    [isAuthenticated] is false at every clock value, the three keys are
    gone from the storage and every other key is untouched, and the timeout
    the service held is no longer armed.  The revocation request is posted
    only when a refresh token was stored, so a second [logout] posts none;
    it only navigates again. *)
Theorem logout_ends_session (P : Platform) (s : State) (now : Z) :
  let s' := logout s in
  isAuthenticated P s' now = false
  /\ currentUser s' = None /\ authenticated s' = false
  /\ (forall k, localStorage s' !! k
                = if bool_decide (k ∈ [TOKEN_KEY; REFRESH_TOKEN_KEY; USER_KEY])
                  then None else localStorage s !! k)
  /\ (forall h, refreshTokenTimer s = Some h ->
                Forall (fun t => fst t <> h) (timers s'))
  /\ effects s'
     = effects s
       ++ (if Js.truthy_opt (getRefreshToken s)
           then [PostLogout (default ""%string (getRefreshToken s))] else [])
       ++ [Navigate "/login"]
  /\ effects (logout s') = effects s' ++ [Navigate "/login"]
  /\ localStorage (logout s') = localStorage s'.
Proof.
  intros s'.
  assert (Hk : forall k, localStorage s' !! k
                = if bool_decide (k ∈ [TOKEN_KEY; REFRESH_TOKEN_KEY; USER_KEY])
                  then None else localStorage s !! k).
  { intros k. unfold s', logout, clearTokens. simpl.
    case_bool_decide as Hin.
    - rewrite !lookup_delete. repeat case_decide; try reflexivity.
      exfalso. set_solver.
    - rewrite !lookup_delete_ne by set_solver. reflexivity. }
  assert (Ha : getAccessToken s' = None) by (apply (Hk TOKEN_KEY)).
  assert (Hr : getRefreshToken s' = None) by (apply (Hk REFRESH_TOKEN_KEY)).
  split; [unfold isAuthenticated; rewrite Ha; reflexivity|].
  split; [reflexivity|]. split; [reflexivity|]. split; [exact Hk|].
  split.
  { intros h Hh. unfold s', logout. simpl. rewrite Hh.
    apply clearTimeout_removes. }
  split.
  { unfold s', logout. simpl.
    destruct (getRefreshToken s) as [rt|]; simpl; [|reflexivity].
    destruct (Js.truthy rt); reflexivity. }
  split.
  { unfold logout at 1. simpl. rewrite Hr. reflexivity. }
  apply map_eq. intros k. unfold logout at 1. unfold clearTokens. simpl.
  destruct (decide (k ∈ [TOKEN_KEY; REFRESH_TOKEN_KEY; USER_KEY])) as [Hin|Hin].
  - rewrite Hk, bool_decide_eq_true_2 by exact Hin.
    rewrite !lookup_delete. repeat case_decide; try reflexivity.
    exfalso. set_solver.
  - rewrite !lookup_delete_ne by set_solver. reflexivity.
Qed.

Lemma logout_ends_session_witness :
  Forall (fun t => fst t <> 1%nat) (timers (logout Demo.session)).
Proof.
  destruct (logout_ends_session Demo.platform Demo.session 0)
    as (_ & _ & _ & _ & H & _).
  exact (H 1%nat eq_refl).
Defined.

(** *** Expiry over time *)

(** X15. Authentication only ever lapses with time: if [isAuthenticated]
    holds at one clock value, it holds at every earlier one, and once it
    has failed for a stored token it fails at every later one. *)
Theorem isAuthenticated_antitone (P : Platform) (s : State) (now later : Z) :
  now <= later ->
  isAuthenticated P s later = true -> isAuthenticated P s now = true.
Proof.
  intros Hle. unfold isAuthenticated, isTokenExpired.
  destruct (getAccessToken s) as [token|]; [|discriminate].
  destruct (Js.truthy token); [|discriminate]. simpl.
  destruct (expiryTime P token) as [[t|]|]; simpl; try discriminate;
    [|reflexivity].
  intros H. apply negb_true_iff, Z.leb_gt in H.
  apply negb_true_iff, Z.leb_gt. lia.
Qed.

Lemma isAuthenticated_antitone_witness :
  isAuthenticated Demo.platform Demo.session 500000 = true.
Proof.
  apply (isAuthenticated_antitone Demo.platform Demo.session 500000 999999);
    [lia | reflexivity].
Defined.

(** *** A successful login or refresh *)

Lemma stored_lookup (P : Platform) (r : LoginResponse) (ls : gmap string string) :
  let ls' :=
    <[USER_KEY := JSON_stringify P (user r)]>
      (<[REFRESH_TOKEN_KEY := refreshToken r]>
         (<[TOKEN_KEY := accessToken r]> ls)) in
  ls' !! TOKEN_KEY = Some (accessToken r)
  /\ ls' !! REFRESH_TOKEN_KEY = Some (refreshToken r)
  /\ ls' !! USER_KEY = Some (JSON_stringify P (user r)).
Proof.
  simpl. repeat split.
  - rewrite lookup_insert_ne by discriminate.
    rewrite lookup_insert_ne by discriminate. apply lookup_insert_eq.
  - rewrite lookup_insert_ne by discriminate. apply lookup_insert_eq.
  - apply lookup_insert_eq.
Qed.

(** X16. When the access token of the response is not empty and its payload
    decodes, [handleAuthSuccess] stores what it was given and arms one
    timer: the two tokens and the user text can be read back, the subjects
    publish the user and [true], the new handle is held, it is armed with
    delay [max 0 (expiry - now - 120000)] milliseconds, the handle held
    before is no longer armed, and nothing is sent. *)
Theorem handleAuthSuccess_stores
    (P : Platform) (r : LoginResponse) (now : Z) (s : State) (t : Number) :
  Js.truthy (accessToken r) = true ->
  expiryTime P (accessToken r) = Some t ->
  let s' := handleAuthSuccess P r now s in
  getAccessToken s' = Some (accessToken r)
  /\ getRefreshToken s' = Some (refreshToken r)
  /\ localStorage s' !! USER_KEY = Some (JSON_stringify P (user r))
  /\ currentUser s' = Some (user r)
  /\ authenticated s' = true
  /\ refreshTokenTimer s' = Some (nextTimer s)
  /\ nextTimer s' = S (nextTimer s)
  /\ timers s'
     = match refreshTokenTimer s with
       | Some h => clearTimeout h (timers s)
       | None => timers s
       end
       ++ [(nextTimer s, num_max0 (num_sub (num_sub t now) 120000))]
  /\ effects s' = effects s
  /\ isAuthenticated P s' now = negb (num_ge now t).
Proof.
  intros Htr Hexp s'.
  destruct (stored_lookup P r (localStorage s)) as (A & R & U).
  cbv zeta in A, R, U.
  assert (Hs' : s' = mkState
            (<[USER_KEY := JSON_stringify P (user r)]>
               (<[REFRESH_TOKEN_KEY := refreshToken r]>
                  (<[TOKEN_KEY := accessToken r]> (localStorage s))))
            (Some (user r)) true (Some (nextTimer s))
            (match refreshTokenTimer s with
             | Some h => clearTimeout h (timers s)
             | None => timers s
             end
             ++ [(nextTimer s, num_max0 (num_sub (num_sub t now) 120000))])
            (S (nextTimer s)) (effects s)).
  { unfold s', handleAuthSuccess, scheduleTokenRefresh, getAccessToken.
    simpl. rewrite A, Htr, Hexp. reflexivity. }
  rewrite Hs'. unfold getAccessToken, getRefreshToken, isAuthenticated,
    getAccessToken, isTokenExpired. simpl. rewrite A, R, U, Htr, Hexp.
  repeat split.
Qed.

Lemma handleAuthSuccess_stores_witness :
  timers (handleAuthSuccess Demo.platform Demo.loginResponse 100000 init)
  = [(1%nat, Fin 780000)].
Proof.
  destruct (handleAuthSuccess_stores Demo.platform Demo.loginResponse 100000
              init (Fin 1000000) eq_refl eq_refl)
    as (_ & _ & _ & _ & _ & _ & _ & H & _).
  exact H.
Defined.

Lemma handleAuthSuccess_armed P r now s t :
  Js.truthy (accessToken r) = true ->
  expiryTime P (accessToken r) = Some t ->
  handleAuthSuccess P r now s
  = mkState
      (<[USER_KEY := JSON_stringify P (user r)]>
         (<[REFRESH_TOKEN_KEY := refreshToken r]>
            (<[TOKEN_KEY := accessToken r]> (localStorage s))))
      (Some (user r)) true (Some (nextTimer s))
      (match refreshTokenTimer s with
       | Some h => clearTimeout h (timers s)
       | None => timers s
       end
       ++ [(nextTimer s, num_max0 (num_sub (num_sub t now) 120000))])
      (S (nextTimer s)) (effects s).
Proof.
  intros Htr Hexp.
  destruct (stored_lookup P r (localStorage s)) as (A & _).
  cbv zeta in A.
  unfold handleAuthSuccess, scheduleTokenRefresh, getAccessToken.
  simpl. rewrite A, Htr, Hexp. reflexivity.
Qed.

(** X17. When the access token of the response is not empty but its payload
    does not decode, or decodes to [null], scheduling the refresh fails and
    logs out: [handleAuthSuccess] ends with the session it has just stored
    removed again, the unauthenticated state published, and, the refresh
    token being non-empty, a revocation request posted for that very token
    before the navigation to the login page. *)
Theorem handleAuthSuccess_undecodable
    (P : Platform) (r : LoginResponse) (now : Z) (s : State) :
  Js.truthy (accessToken r) = true ->
  expiryTime P (accessToken r) = None ->
  let s' := handleAuthSuccess P r now s in
  getAccessToken s' = None
  /\ getRefreshToken s' = None
  /\ localStorage s' !! USER_KEY = None
  /\ currentUser s' = None
  /\ authenticated s' = false
  /\ refreshTokenTimer s' = refreshTokenTimer s
  /\ (forall now', isAuthenticated P s' now' = false)
  /\ effects s'
     = effects s
       ++ (if Js.truthy (refreshToken r) then [PostLogout (refreshToken r)]
           else [])
       ++ [Navigate "/login"].
Proof.
  intros Htr Hexp s'.
  destruct (stored_lookup P r (localStorage s)) as (A & R & U).
  cbv zeta in A, R, U.
  set (stored := mkState
         (<[USER_KEY := JSON_stringify P (user r)]>
            (<[REFRESH_TOKEN_KEY := refreshToken r]>
               (<[TOKEN_KEY := accessToken r]> (localStorage s))))
         (Some (user r)) true (refreshTokenTimer s) (timers s) (nextTimer s)
         (effects s)).
  assert (Hs' : s' = logout stored).
  { unfold s', handleAuthSuccess, scheduleTokenRefresh, getAccessToken.
    simpl. rewrite A, Htr, Hexp. reflexivity. }
  rewrite Hs'.
  assert (Hget : getAccessToken (logout stored) = None
                 /\ getRefreshToken (logout stored) = None
                 /\ localStorage (logout stored) !! USER_KEY = None).
  { unfold getAccessToken, getRefreshToken, logout, clearTokens. simpl.
    repeat split.
    - rewrite lookup_delete_ne by discriminate.
      rewrite lookup_delete_ne by discriminate. apply lookup_delete_eq.
    - rewrite lookup_delete_ne by discriminate. apply lookup_delete_eq.
    - apply lookup_delete_eq. }
  destruct Hget as (Ha & Hr & Hu).
  split; [exact Ha|]. split; [exact Hr|]. split; [exact Hu|].
  split; [reflexivity|]. split; [reflexivity|]. split; [reflexivity|].
  split.
  - intros now'. unfold isAuthenticated. rewrite Ha. reflexivity.
  - unfold logout, getRefreshToken. simpl. rewrite R. reflexivity.
Qed.

Lemma handleAuthSuccess_undecodable_witness :
  let r := mkLoginResponse "Login successful" "test-access-token"
                           "test-refresh-token" Demo.testuser "3600" in
  effects (handleAuthSuccess Demo.platform r 0 init)
  = [PostLogout "test-refresh-token"; Navigate "/login"].
Proof.
  intros r.
  destruct (handleAuthSuccess_undecodable Demo.platform r 0 init
              eq_refl eq_refl) as (_ & _ & _ & _ & _ & _ & _ & H).
  exact H.
Defined.

(** *** A page load *)

(** X18. A session survives a page load: after [handleAuthSuccess] has
    stored a response whose token decodes, a new instance of the service
    over the same storage publishes the same user and the authenticated
    state again and arms exactly one timer, computed from the clock of the
    load, provided the stored user text parses back to the user.  The
    published state is [true] even when the token has expired by then, while
    [isAuthenticated] answers by the clock. *)
Theorem construct_restores_session
    (P : Platform) (parseUser : string -> option User)
    (r : LoginResponse) (now0 now1 : Z) (s : State) (t : Number) :
  Js.truthy (accessToken r) = true ->
  expiryTime P (accessToken r) = Some t ->
  Js.truthy (JSON_stringify P (user r)) = true ->
  parseUser (JSON_stringify P (user r)) = Some (user r) ->
  let stored := localStorage (handleAuthSuccess P r now0 s) in
  let s' := AuthInit.construct P parseUser stored now1 in
  localStorage s' = stored
  /\ getAccessToken s' = Some (accessToken r)
  /\ getRefreshToken s' = Some (refreshToken r)
  /\ currentUser s' = Some (user r)
  /\ authenticated s' = true
  /\ timers s' = [(1%nat, num_max0 (num_sub (num_sub t now1) 120000))]
  /\ refreshTokenTimer s' = Some 1%nat
  /\ effects s' = []
  /\ isAuthenticated P s' now1 = negb (num_ge now1 t).
Proof.
  intros Htr Hexp Hju Hparse stored s'.
  destruct (stored_lookup P r (localStorage s)) as (A & R & U).
  cbv zeta in A, R, U.
  assert (Hst : stored
                = <[USER_KEY := JSON_stringify P (user r)]>
                    (<[REFRESH_TOKEN_KEY := refreshToken r]>
                       (<[TOKEN_KEY := accessToken r]> (localStorage s)))).
  { unfold stored. rewrite (handleAuthSuccess_armed P r now0 s t Htr Hexp).
    reflexivity. }
  assert (Hs' : s' = mkState stored (Some (user r)) true (Some 1%nat)
                       [(1%nat, num_max0 (num_sub (num_sub t now1) 120000))]
                       2 []).
  { unfold s', AuthInit.construct, AuthInit.initializeAuth,
      scheduleTokenRefresh, getAccessToken. simpl.
    rewrite Hst, A, U. simpl. rewrite Htr, Hju. simpl.
    rewrite Hparse, Hexp. reflexivity. }
  rewrite Hs'. unfold isAuthenticated, isTokenExpired, getAccessToken,
    getRefreshToken. simpl. rewrite Hst, A, R, Htr, Hexp.
  repeat split.
Qed.

Lemma construct_restores_session_witness :
  let s' :=
    AuthInit.construct Demo.platform
      (fun d => if String.eqb d Demo.json_testuser then Some Demo.testuser
                else None)
      (localStorage Demo.session) 5000000 in
  authenticated s' = true
  /\ isAuthenticated Demo.platform s' 5000000 = false
  /\ timers s' = [(1%nat, Fin 0)].
Proof.
  intros s'.
  destruct (construct_restores_session Demo.platform
              (fun d => if String.eqb d Demo.json_testuser
                        then Some Demo.testuser else None)
              Demo.loginResponse 0 5000000 init (Fin 1000000)
              eq_refl eq_refl eq_refl eq_refl)
    as (_ & _ & _ & _ & Ha & Ht & _ & _ & Hi).
  split; [exact Ha|]. split; [exact Hi | exact Ht].
Defined.

(** *** One timer *)

Lemma held_timer_cleared a :
  Extra.one_timer a ->
  match refreshTokenTimer a with
  | Some h => clearTimeout h (timers a)
  | None => timers a
  end = [].
Proof.
  unfold Extra.one_timer. intros [HF _]. revert HF.
  destruct (refreshTokenTimer a) as [h|]; intros HF.
  - unfold clearTimeout.
    induction HF as [|t ts Ht _ IH]; simpl; [reflexivity|].
    injection Ht as ->. rewrite Nat.eqb_refl. exact IH.
  - destruct HF as [|t ts Ht _]; [reflexivity | discriminate Ht].
Qed.

Lemma logout_one_timer a :
  Extra.one_timer a ->
  Extra.one_timer (logout a) /\ timers (logout a) = [].
Proof.
  intros H.
  assert (E : timers (logout a) = []) by exact (held_timer_cleared a H).
  split; [|exact E]. unfold Extra.one_timer. rewrite E.
  split; [constructor | simpl; lia].
Qed.

Lemma scheduleTokenRefresh_one_timer P now a :
  Extra.one_timer a -> Extra.one_timer (scheduleTokenRefresh P now a).
Proof.
  intros H. unfold scheduleTokenRefresh.
  destruct (getAccessToken a) as [token|]; [|exact H].
  destruct (negb (Js.truthy token)); [exact H|].
  destruct (expiryTime P token) as [t|]; [|apply logout_one_timer, H].
  unfold Extra.one_timer. cbn [timers refreshTokenTimer].
  rewrite (held_timer_cleared a H). simpl.
  split; [repeat constructor | lia].
Qed.

Lemma handleAuthSuccess_one_timer P r now a :
  Extra.one_timer a -> Extra.one_timer (handleAuthSuccess P r now a).
Proof.
  intros H. unfold handleAuthSuccess.
  apply scheduleTokenRefresh_one_timer. exact H.
Qed.

Lemma refreshToken_start_one_timer a :
  Extra.one_timer a -> Extra.one_timer (fst (refreshToken_start a)).
Proof.
  intros H. unfold refreshToken_start.
  destruct (getRefreshToken a) as [rt|]; [|apply logout_one_timer, H].
  destruct (Js.truthy rt); [exact H | apply logout_one_timer, H].
Qed.

Lemma login_one_timer P o now a :
  Extra.one_timer a -> Extra.one_timer (fst (login P o now a)).
Proof.
  intros H. destruct o as [r|e]; simpl.
  - apply handleAuthSuccess_one_timer, H.
  - destruct (Js.status_is 401 e); [apply logout_one_timer, H | exact H].
Qed.

Lemma construct_one_timer P parseUser ls now :
  Extra.one_timer (AuthInit.construct P parseUser ls now).
Proof.
  assert (H0 : Extra.one_timer (mkState ls None false None [] 1 [])).
  { split; [constructor | simpl; lia]. }
  unfold AuthInit.construct, AuthInit.initializeAuth.
  destruct (_ && _); [|exact H0].
  destruct (parseUser _) as [u|]; [|apply logout_one_timer, H0].
  apply scheduleTokenRefresh_one_timer. exact H0.
Qed.

End AuthMore.

(** ** More on the refresh coordinator and the route guard *)

Module InterceptorMore.

Import Interceptor.

(** *** One refresh timer *)

Lemma subscribeRefresh_one_timer o s :
  Extra.one_timer (auth s) ->
  Extra.one_timer (auth (fst (subscribeRefresh o s))).
Proof.
  intros H. unfold subscribeRefresh.
  pose proof (AuthMore.refreshToken_start_one_timer (auth s) H) as H1.
  destruct (Auth.refreshToken_start (auth s)) as [a [rt|e]]; exact H1.
Qed.

Lemma set_phase_auth k ph s : auth (set_phase k ph s) = auth s.
Proof. exact (proj1 (InterceptorFacts.set_phase_frame k ph s)). Qed.

Lemma fail_post_one_timer n : forall k e s,
  Extra.one_timer (auth s) -> Extra.one_timer (auth (fail_post n k e s)).
Proof.
  induction n as [|n IH]; intros k e s H; [exact H|].
  cbn [fail_post]. destruct (find_call k s) as [[i c]|]; [|exact H].
  cbn [Auth.refreshToken_error].
  pose proof (AuthMore.logout_one_timer (auth s) H) as [H1 _].
  pose proof (AuthMore.logout_one_timer _ H1) as [H2 _].
  destruct (origin c); try exact H1; try exact H2.
  apply IH. exact H2.
Qed.

Lemma refreshFailed_one_timer w e s :
  Extra.one_timer (auth s) -> Extra.one_timer (auth (refreshFailed w e s)).
Proof.
  intros H. pose proof (AuthMore.logout_one_timer (auth s) H) as [H1 _].
  unfold refreshFailed. destruct w as [r|k]; cbn [fail_sender].
  - exact H1.
  - apply fail_post_one_timer. exact H1.
Qed.

Lemma handle401Error_one_timer w s :
  Extra.one_timer (auth s) -> Extra.one_timer (auth (handle401Error w s)).
Proof.
  intros H. unfold handle401Error. destruct (negb (isRefreshing s)).
  - cbn [auth].
    set (s1 := mkState (auth s) true None (waiting s) (refreshCalls s)
                       (nextCall s) (outcomes s) (retrying s)).
    assert (H0 : forall e, Extra.one_timer (auth (refreshFailed w e s1))).
    { intros e. apply refreshFailed_one_timer. exact H. }
    destruct (Auth.getRefreshToken (auth s)) as [rt|]; [|apply H0].
    destruct (Js.truthy rt); [|apply H0].
    pose proof (subscribeRefresh_one_timer (origin_of w) s1 H) as H1.
    destruct (subscribeRefresh (origin_of w) s1) as [s2 [e'|]].
    + apply refreshFailed_one_timer. exact H1.
    + destruct w as [r|k]; cbn [hold]; [|rewrite set_phase_auth]; exact H1.
  - destruct (refreshTokenSubject s); destruct w as [r|k];
      cbn [resend park]; rewrite ?set_phase_auth; exact H.
Qed.

Lemma refreshed_auth o token s : auth (refreshed o token s) = auth s.
Proof.
  destruct o; cbn [refreshed]; rewrite ?set_phase_auth; reflexivity.
Qed.

Lemma handle_one_timer P s ev :
  Extra.one_timer (auth s) -> Extra.one_timer (auth (handle P s ev)).
Proof.
  intros H. destruct ev as [r tok e|h|now|k resp now|k e|r e]; cbn [handle].
  - unfold intercept_error. destruct (_ && _); [|exact H].
    apply handle401Error_one_timer, H.
  - unfold timerFired. destruct (existsb _ _); [|exact H].
    apply subscribeRefresh_one_timer. cbn [auth set_auth].
    destruct H as [HF HL]. split; cbn [Auth.timers Auth.refreshTokenTimer].
    + unfold Auth.clearTimeout. clear HL.
      induction HF as [|t ts Ht _ IH]; simpl; [constructor|].
      destruct (negb _); [constructor; [exact Ht|]|]; exact IH.
    + unfold Auth.clearTimeout. revert HL.
      generalize (Auth.timers (auth s)). intros ts.
      destruct ts as [|t [|t' ts]]; simpl; [lia| |lia].
      destruct (negb _); simpl; lia.
  - unfold checkAuth. destruct (Auth.isAuthenticated P (auth s) now);
      [exact H|].
    destruct (Auth.getRefreshToken (auth s)) as [rt|]; [|exact H].
    destruct (Js.truthy rt); [|exact H].
    pose proof (subscribeRefresh_one_timer FromGuard s H) as H1.
    destruct (subscribeRefresh FromGuard s) as [s1 [e'|]]; exact H1.
  - unfold refreshResponse. destruct (find_call k s) as [[i c]|]; [|exact H].
    destruct (on_wire (phase c)); [|exact H].
    rewrite refreshed_auth. cbn [auth set_auth remove_call set_calls].
    apply AuthMore.handleAuthSuccess_one_timer, H.
  - unfold refreshError. destruct (find_call k s) as [[i c]|]; [|exact H].
    destruct (phase c); try exact H.
    + destruct (_ && _);
        [apply handle401Error_one_timer | apply fail_post_one_timer];
        exact H.
    + apply fail_post_one_timer, H.
    + apply refreshFailed_one_timer, H.
  - unfold retryFailed. destruct (existsb _ _); [|exact H].
    apply AuthMore.logout_one_timer, H.
Qed.

Lemma step_one_timer P s c :
  Extra.one_timer (auth s) -> Extra.one_timer (auth (Session.step P s c)).
Proof.
  intros H. destruct c as [ev|o now|]; cbn [Session.step].
  - apply handle_one_timer, H.
  - apply AuthMore.login_one_timer, H.
  - apply AuthMore.logout_one_timer, H.
Qed.

Lemma run_one_timer P cs : forall s,
  Extra.one_timer (auth s) -> Extra.one_timer (auth (Session.run P cs s)).
Proof.
  induction cs as [|c cs IH]; intros s H; [exact H|].
  apply IH, step_one_timer, H.
Qed.

(** X19. From a page load on, whatever the storage held and whatever
    happens afterwards (logins, logouts, failed requests, guard checks,
    timers firing, refresh calls answered), the service has at most one
    refresh timeout armed, and the armed one is the one whose handle it
    holds.  So a [logout] at any point leaves no timeout armed: no refresh
    request is sent by a timer after a logout. *)
Theorem refresh_timer_unique
    (P : Auth.Platform) (parseUser : string -> option Auth.User)
    (ls : gmap string string) (now : Z) (cs : list Session.Call) :
  let a := auth (Session.run P cs
                   (init (AuthInit.construct P parseUser ls now))) in
  (length (Auth.timers a) <= 1)%nat
  /\ (forall t, t ∈ Auth.timers a -> Auth.refreshTokenTimer a = Some (fst t))
  /\ Auth.timers (Auth.logout a) = []
  /\ (forall h,
        refreshCalls (timerFired h (set_auth (Auth.logout a)
                                      (Session.run P cs
                   (init (AuthInit.construct P parseUser ls now)))))
        = refreshCalls (Session.run P cs
                   (init (AuthInit.construct P parseUser ls now)))).
Proof.
  intros a.
  assert (H : Extra.one_timer a).
  { apply run_one_timer. apply AuthMore.construct_one_timer. }
  destruct (AuthMore.logout_one_timer a H) as [_ E].
  split; [exact (proj2 H)|]. split.
  - intros t Ht. destruct H as [HF _].
    exact (proj1 (Forall_forall _ _) HF t Ht).
  - split; [exact E|]. intros h. unfold timerFired.
    cbn [auth set_auth]. rewrite E. reflexivity.
Qed.

Lemma refresh_timer_unique_witness :
  Auth.refreshTokenTimer
    (auth (Session.run Demo.platform
             [Session.Login (inl Demo.loginResponse) 0]
             (init (AuthInit.construct Demo.platform (fun _ => None) ∅ 0))))
  = Some 1%nat.
Proof.
  destruct (refresh_timer_unique Demo.platform (fun _ => None) ∅ 0
              [Session.Login (inl Demo.loginResponse) 0])
    as (_ & H & _).
  apply (H (1%nat, Auth.Fin 880000)).
  assert (E : Auth.timers
                (auth (Session.run Demo.platform
                         [Session.Login (inl Demo.loginResponse) 0]
                         (init (AuthInit.construct Demo.platform
                                  (fun _ => None) ∅ 0))))
              = [(1%nat, Auth.Fin 880000)]) by reflexivity.
  rewrite E. left.
Defined.

(** *** A refresh request that fails *)

(** X20. A refresh request sent by [refreshToken()] that fails reaches
    the [catchError] of [refreshToken()] unless it is a 401 to a request
    that carried an access token.  Then the session is ended and the stored
    refresh token is revoked at most once, whichever of the three started
    the call: a request that got a 401, the timer or the guard; what
    differs is the rest.  The timer's call navigates to the login page once
    and tells nobody.  The interceptor's call runs [logout] a second time,
    so the navigation happens twice, and fails the request that got the 401
    with the error of the refresh, not its own.  The guard's call navigates
    a second time and answers [false].  A 401 to a refresh request that
    carried a token is taken by [intercept] like the 401 of any request:
    while [isRefreshing] is set and the subject holds [null] the request
    only lines up behind the subject, so nobody is logged out, nothing
    fails and the tokens stay. *)
Theorem refreshError_by_origin
    (k : nat) (e : Js.HttpError) (s : State) (i : nat) (c : RefreshCall) :
  find_call k s = Some (i, c) ->
  phase c = Sent ->
  let s' := refreshError k e s in
  let revoke :=
    if Js.truthy_opt (Auth.getRefreshToken (auth s))
    then [Auth.PostLogout (default ""%string (Auth.getRefreshToken (auth s)))]
    else [] in
  (Js.status_is 401 (Js.Http e) && attached c = false ->
   (forall k0, origin c <> FromPost k0) ->
   refreshCalls s' = delete i (refreshCalls s)
   /\ Auth.getAccessToken (auth s') = None
   /\ Auth.getRefreshToken (auth s') = None
   /\ Auth.currentUser (auth s') = None
   /\ Auth.authenticated (auth s') = false
   /\ Auth.effects (auth s')
      = Auth.effects (auth s) ++ revoke
        ++ match origin c with
           | FromTimer => [Auth.Navigate "/login"]
           | _ => [Auth.Navigate "/login"; Auth.Navigate "/login"]
           end
   /\ outcomes s'
      = outcomes s
        ++ match origin c with
           | From401 r => [Failed r (Js.Http e)]
           | FromGuard => [Guard false]
           | _ => []
           end
   /\ waiting s' = waiting s
   /\ isRefreshing s'
      = match origin c with From401 _ => false | _ => isRefreshing s end)
  /\ (Js.status_is 401 (Js.Http e) && attached c = true ->
      isRefreshing s = true -> refreshTokenSubject s = None ->
      auth s' = auth s
      /\ outcomes s' = outcomes s
      /\ waiting s' = waiting s
      /\ isRefreshing s' = true
      /\ refreshCalls s' = <[i := with_phase Waiting c]> (refreshCalls s)).
Proof.
  intros Hk Hph s' revoke. split.
  - intros Hcond Hor.
    assert (Hs' : s' = let s1 := remove_call i s in
                       let s2 := set_auth (Auth.logout (auth s1)) s1 in
                       match origin c with
                       | From401 r => emit [Failed r (Js.Http e)] (catch401 s2)
                       | FromTimer => s2
                       | FromGuard => guardRefused s2
                       | FromPost k0 => s2
                       end).
    { unfold s', refreshError. rewrite Hk, Hph, Hcond. cbn [fail_sender].
      pose proof (lookup_lt_Some _ _ _
                    (InterceptorFacts.find_call_lookup _ _ _ _ Hk)) as Hlt.
      destruct (length (refreshCalls s)) as [|m]; [lia|].
      cbn [fail_post]. rewrite Hk. cbn [Auth.refreshToken_error].
      destruct (origin c) as [r| | |k0]; try reflexivity.
      exfalso. exact (Hor k0 eq_refl). }
    assert (Ha : Auth.getAccessToken (Auth.logout (auth s)) = None).
    { unfold Auth.getAccessToken, Auth.logout, Auth.clearTokens. simpl.
      rewrite lookup_delete_ne by discriminate.
      rewrite lookup_delete_ne by discriminate. apply lookup_delete_eq. }
    assert (Hr : Auth.getRefreshToken (Auth.logout (auth s)) = None).
    { unfold Auth.getRefreshToken, Auth.logout, Auth.clearTokens. simpl.
      rewrite lookup_delete_ne by discriminate. apply lookup_delete_eq. }
    assert (Ha2 : Auth.getAccessToken (Auth.logout (Auth.logout (auth s)))
                  = None).
    { unfold Auth.getAccessToken, Auth.logout at 1, Auth.clearTokens. simpl.
      rewrite lookup_delete_ne by discriminate.
      rewrite lookup_delete_ne by discriminate. apply lookup_delete_eq. }
    assert (Hr2 : Auth.getRefreshToken (Auth.logout (Auth.logout (auth s)))
                  = None).
    { unfold Auth.getRefreshToken, Auth.logout at 1, Auth.clearTokens. simpl.
      rewrite lookup_delete_ne by discriminate. apply lookup_delete_eq. }
    assert (He : Auth.effects (Auth.logout (auth s))
                 = Auth.effects (auth s) ++ revoke
                   ++ [Auth.Navigate "/login"]).
    { unfold revoke, Auth.logout. simpl.
      destruct (Auth.getRefreshToken (auth s)) as [rt|]; simpl; [|reflexivity].
      destruct (Js.truthy rt); reflexivity. }
    assert (He2 : Auth.effects (Auth.logout (Auth.logout (auth s)))
                  = Auth.effects (auth s) ++ revoke
                    ++ [Auth.Navigate "/login"; Auth.Navigate "/login"]).
    { unfold Auth.logout at 1. cbn [Auth.effects]. rewrite Hr, He.
      rewrite <- !app_assoc. reflexivity. }
    rewrite Hs'. cbv zeta.
    destruct (origin c) as [r| | |k0];
      cbn [catch401 guardRefused emit set_auth remove_call set_calls auth
           refreshCalls outcomes isRefreshing waiting Auth.effects
           Auth.currentUser Auth.authenticated].
    + repeat split; try assumption; rewrite ?app_nil_r; reflexivity.
    + repeat split; try assumption; rewrite ?app_nil_r; reflexivity.
    + repeat split; try assumption.
      rewrite He, <- !app_assoc. reflexivity.
    + exfalso. exact (Hor k0 eq_refl).
  - intros Hcond Hr Hs.
    assert (Hs' : s' = set_phase k Waiting s).
    { unfold s', refreshError, handle401Error.
      rewrite Hk, Hph, Hcond, Hr, Hs. reflexivity. }
    rewrite Hs'. unfold set_phase. rewrite Hk. simpl.
    repeat split. exact Hr.
Qed.

Lemma refreshError_by_origin_witness :
  let s := run Demo.platform
             [RequestFailed 1%nat (Some Demo.token_exp1000)
                            (Js.Http Demo.unauthorized)]
             (init Demo.session) in
  Auth.effects (auth (refreshError 0 Demo.serverError s))
  = [Auth.PostRefresh "refresh-1"; Auth.PostLogout "refresh-1";
     Auth.Navigate "/login"; Auth.Navigate "/login"]%string
  /\ phase <$> refreshCalls (refreshError 0 Demo.unauthorized s) = [Waiting]
  /\ outcomes (refreshError 0 Demo.unauthorized s) = [].
Proof.
  intros s.
  destruct (refreshError_by_origin 0 Demo.serverError s 0
              (mkCall 0 "refresh-1" (From401 1%nat) true Sent)
              ltac:(vm_compute; reflexivity) eq_refl) as (H500 & _).
  destruct (H500 eq_refl ltac:(discriminate)) as (_ & _ & _ & _ & _ & He & _).
  destruct (refreshError_by_origin 0 Demo.unauthorized s 0
              (mkCall 0 "refresh-1" (From401 1%nat) true Sent)
              ltac:(vm_compute; reflexivity) eq_refl) as (_ & H401).
  destruct (H401 eq_refl ltac:(vm_compute; reflexivity)
              ltac:(vm_compute; reflexivity)) as (_ & Ho & _ & _ & Hc).
  split; [etransitivity; [exact He | vm_compute; reflexivity]|].
  split; [rewrite Hc; vm_compute; reflexivity|].
  etransitivity; [exact Ho | vm_compute; reflexivity].
Defined.

(** *** What becomes of a failed request *)
























(** *** What becomes of a guard check *)

Lemma filter_guard_app (o1 o2 : list Outcome) :
  length (List.filter (fun o => match o with Guard _ => true | _ => false end)
                      (o1 ++ o2))
  = (length (List.filter
               (fun o => match o with Guard _ => true | _ => false end) o1)
     + length (List.filter
                 (fun o => match o with Guard _ => true | _ => false end) o2)
    )%nat.
Proof. rewrite List.filter_app, length_app. reflexivity. Qed.

Lemma guard_calls_delete (calls : list RefreshCall) i c :
  calls !! i = Some c ->
  length (List.filter
            (fun c => match origin c with FromGuard => true | _ => false end)
            calls)
  = ((match origin c with FromGuard => 1 | _ => 0 end)
     + length (List.filter
                 (fun c => match origin c with
                           | FromGuard => true
                           | _ => false
                           end) (delete i calls)))%nat.
Proof.
  revert i. induction calls as [|x l IH]; intros i H; [discriminate|].
  destruct i as [|i]; simpl in H.
  - injection H as ->. simpl. destruct (origin c); reflexivity.
  - specialize (IH i H). simpl.
    destruct (origin x); simpl; rewrite IH; lia.
Qed.

Lemma guard_retried (ws : list Request) token :
  length (List.filter (fun o => match o with Guard _ => true | _ => false end)
                      (map (fun w => Retried w token) ws)) = 0%nat.
Proof. induction ws as [|w ws IH]; simpl; [reflexivity | exact IH]. Qed.

Lemma set_phase_guard k ph s :
  Extra.guard_answers (set_phase k ph s) = Extra.guard_answers s
  /\ Extra.guard_calls (set_phase k ph s) = Extra.guard_calls s.
Proof.
  unfold Extra.guard_answers, Extra.guard_calls, set_phase.
  destruct (find_call k s) as [[i c]|] eqn:Hf; [|split; reflexivity].
  apply InterceptorFacts.find_call_lookup in Hf. simpl.
  split; [reflexivity|].
  apply (InterceptorFacts.filter_insert_length _ _ _ c);
    [exact Hf | reflexivity].
Qed.

Lemma notify_guard token s :
  Extra.guard_answers (notify token s) = Extra.guard_answers s
  /\ Extra.guard_calls (notify token s) = Extra.guard_calls s.
Proof.
  unfold Extra.guard_answers, Extra.guard_calls, notify. simpl. split.
  - rewrite filter_guard_app, guard_retried. lia.
  - apply InterceptorFacts.filter_map_length.
    intros c. destruct (phase c); reflexivity.
Qed.

Lemma fail_post_guard n : forall k e s,
  (Extra.guard_answers (fail_post n k e s)
   + Extra.guard_calls (fail_post n k e s)
   = Extra.guard_answers s + Extra.guard_calls s)%nat.
Proof.
  induction n as [|n IH]; intros k e s; [reflexivity|].
  cbn [fail_post]. destruct (find_call k s) as [[i c]|] eqn:Hf;
    [|reflexivity].
  cbn [Auth.refreshToken_error].
  pose proof (guard_calls_delete _ _ _ (InterceptorFacts.find_call_lookup
                                          _ _ _ _ Hf)) as Hd.
  destruct (origin c) eqn:Ho.
  - unfold Extra.guard_answers, Extra.guard_calls in *. simpl.
    rewrite filter_guard_app. simpl. lia.
  - unfold Extra.guard_answers, Extra.guard_calls in *. simpl. lia.
  - unfold Extra.guard_answers, Extra.guard_calls in *. simpl.
    rewrite filter_guard_app. simpl. lia.
  - rewrite IH. unfold Extra.guard_answers, Extra.guard_calls in *. simpl.
    lia.
Qed.

Lemma refreshFailed_guard w e s :
  (Extra.guard_answers (refreshFailed w e s)
   + Extra.guard_calls (refreshFailed w e s)
   = Extra.guard_answers s + Extra.guard_calls s)%nat.
Proof.
  unfold refreshFailed. destruct w as [r|k]; cbn [fail_sender].
  - unfold Extra.guard_answers, Extra.guard_calls. simpl.
    rewrite filter_guard_app. simpl. lia.
  - rewrite fail_post_guard. reflexivity.
Qed.

Lemma handle401Error_guard w s :
  (Extra.guard_answers (handle401Error w s)
   + Extra.guard_calls (handle401Error w s)
   = Extra.guard_answers s + Extra.guard_calls s)%nat.
Proof.
  unfold handle401Error. destruct (negb (isRefreshing s)).
  - cbn [auth].
    set (s1 := mkState (auth s) true None (waiting s) (refreshCalls s)
                       (nextCall s) (outcomes s) (retrying s)).
    assert (H0 : forall e,
              (Extra.guard_answers (refreshFailed w e s1)
               + Extra.guard_calls (refreshFailed w e s1)
               = Extra.guard_answers s + Extra.guard_calls s)%nat).
    { intros e. rewrite refreshFailed_guard. reflexivity. }
    destruct (Auth.getRefreshToken (auth s)) as [rt|]; [|apply H0].
    destruct (Js.truthy rt); [|apply H0].
    pose proof (InterceptorFacts.subscribeRefresh_shape (origin_of w) s1)
      as H.
    destruct (subscribeRefresh (origin_of w) s1) as [s2 [e|]].
    + destruct H as (_ & _ & _ & Ho & _ & Hc).
      rewrite refreshFailed_guard.
      unfold Extra.guard_answers, Extra.guard_calls. rewrite Ho, Hc.
      reflexivity.
    + destruct H as (_ & _ & _ & Ho & _ & rt' & b & Hc).
      assert (H2 : (Extra.guard_answers s2 + Extra.guard_calls s2
                    = Extra.guard_answers s + Extra.guard_calls s)%nat).
      { unfold Extra.guard_answers, Extra.guard_calls. rewrite Ho, Hc.
        rewrite List.filter_app, length_app. simpl.
        destruct w; simpl; lia. }
      destruct w as [r|k]; cbn [hold]; [exact H2|].
      destruct (set_phase_guard k Nested s2) as [-> ->]. exact H2.
  - destruct (refreshTokenSubject s); destruct w as [r|k];
      cbn [resend park].
    + unfold Extra.guard_answers, Extra.guard_calls. simpl.
      rewrite filter_guard_app. simpl. lia.
    + destruct (set_phase_guard k Resent s) as [-> ->]. reflexivity.
    + reflexivity.
    + destruct (set_phase_guard k Waiting s) as [-> ->]. reflexivity.
Qed.

Lemma refreshed_guard o token s :
  (Extra.guard_answers (refreshed o token s)
   + Extra.guard_calls (refreshed o token s)
   = Extra.guard_answers s + Extra.guard_calls s
     + match o with FromGuard => 1 | _ => 0 end)%nat.
Proof.
  destruct o as [r| | |k0]; cbn [refreshed].
  - unfold Extra.guard_answers, Extra.guard_calls. simpl.
    rewrite !filter_guard_app, guard_retried. simpl.
    rewrite InterceptorFacts.filter_map_length
      by (intros c; destruct (phase c); reflexivity).
    lia.
  - lia.
  - unfold Extra.guard_answers, Extra.guard_calls. simpl.
    rewrite filter_guard_app. simpl. lia.
  - match goal with |- context [set_phase k0 ResentGuarded ?t] =>
      destruct (set_phase_guard k0 ResentGuarded t) as [-> ->]
    end.
    unfold Extra.guard_answers, Extra.guard_calls. simpl.
    rewrite !filter_guard_app, guard_retried.
    rewrite InterceptorFacts.filter_map_length
      by (intros c; destruct (phase c); reflexivity).
    lia.
Qed.

Lemma handle_guard P s ev :
  (Extra.guard_answers (handle P s ev) + Extra.guard_calls (handle P s ev)
   = Extra.guard_answers s + Extra.guard_calls s + Extra.guard_checks [ev]
  )%nat.
Proof.
  destruct ev as [r tok e|h|now|k resp now|k e|r e];
    unfold Extra.guard_checks; cbn [handle List.filter length];
    rewrite ?Nat.add_0_r.
  - unfold intercept_error. destruct (_ && _).
    + apply handle401Error_guard.
    + unfold Extra.guard_answers, Extra.guard_calls. simpl.
      rewrite filter_guard_app. simpl. lia.
  - unfold timerFired, subscribeRefresh.
    destruct (existsb _ _); [|reflexivity].
    cbn [auth set_auth].
    match goal with
    | |- context [Auth.refreshToken_start ?x] =>
        destruct (Auth.refreshToken_start x) as [a [rt'|e']]
    end; unfold Extra.guard_answers, Extra.guard_calls;
      cbn [fst outcomes refreshCalls set_auth];
      rewrite ?List.filter_app, ?length_app; simpl; lia.
  - unfold checkAuth, subscribeRefresh, guardRefused, emit,
      Extra.guard_answers, Extra.guard_calls.
    destruct (Auth.isAuthenticated P (auth s) now);
      cbn [outcomes refreshCalls set_auth].
    { rewrite filter_guard_app. simpl. lia. }
    destruct (Auth.getRefreshToken (auth s)) as [rt|];
      cbn [outcomes refreshCalls set_auth].
    2:{ rewrite filter_guard_app. simpl. lia. }
    destruct (Js.truthy rt); cbn [outcomes refreshCalls set_auth].
    2:{ rewrite filter_guard_app. simpl. lia. }
    destruct (Auth.refreshToken_start (auth s)) as [a [rt'|e']];
      cbn [outcomes refreshCalls set_auth];
      rewrite ?filter_guard_app, ?List.filter_app, ?length_app; simpl; lia.
  - unfold refreshResponse.
    destruct (find_call k s) as [[i c]|] eqn:Hk; [|reflexivity].
    destruct (on_wire (phase c)); [|reflexivity].
    apply InterceptorFacts.find_call_lookup in Hk.
    pose proof (guard_calls_delete _ _ _ Hk) as Hd.
    rewrite refreshed_guard.
    unfold Extra.guard_answers, Extra.guard_calls in *. simpl.
    destruct (origin c); lia.
  - unfold refreshError.
    destruct (find_call k s) as [[i c]|] eqn:Hk; [|reflexivity].
    destruct (phase c); try reflexivity.
    + destruct (_ && _); [apply handle401Error_guard|].
      cbn [fail_sender]. apply fail_post_guard.
    + cbn [fail_sender]. apply fail_post_guard.
    + apply refreshFailed_guard.
  - unfold retryFailed. destruct (existsb _ _); [|reflexivity].
    unfold Extra.guard_answers, Extra.guard_calls. simpl.
    rewrite filter_guard_app. simpl. lia.
Qed.

(** X22. Every guard check is answered at most once, and only a check that
    started a refresh call can be unanswered: the number of answers the
    guard has given plus the number of its refresh calls in flight grows by
    exactly one with each check and is changed by nothing else. *)
Theorem guard_checks_accounted
    (P : Auth.Platform) (evs : list Event) (s : State) :
  let s' := run P evs s in
  (Extra.guard_answers s' + Extra.guard_calls s'
   = Extra.guard_answers s + Extra.guard_calls s + Extra.guard_checks evs
  )%nat.
Proof.
  revert s. induction evs as [|ev evs IH]; intros s; cbn zeta.
  - unfold Extra.guard_checks. simpl. lia.
  - change (run P (ev :: evs) s) with (run P evs (handle P s ev)).
    pose proof (IH (handle P s ev)) as H. cbn zeta in H. rewrite H.
    rewrite (handle_guard P s ev).
    unfold Extra.guard_checks. cbn [List.filter].
    destruct ev; cbn [length]; lia.
Qed.

End InterceptorMore.
